(** * lambdachess: the board model, its renderer and the click controller

    A shallow embedding of [src/index.ts].  The program is a single
    TypeScript module: a [Board] class holding an 8x8 grid of optional
    pieces, a [draw] method that rebuilds a DOM subtree from the grid, and
    a click handler that implements the two-click "select then move"
    gesture.

    Modelling choices, all taken from the run-time behaviour of the code:

    - numbers used as coordinates are integers, modelled as [Z];
    - a JavaScript array is a finite map from integer keys to values plus
      its [length]; reading a missing key yields [undefined] and writing
      past the end extends the array;
    - statements that can throw run in a state-and-exception monad, so that
      the mutations performed before a throw are kept, as in JavaScript;
    - a DOM element is a tree of elements and text nodes; the only
      listeners the program ever registers are the per-square click
      closures, which are represented by the pair of coordinates they
      capture. *)

From Stdlib Require Import ZArith List String Lia.
From stdpp Require Import base gmap list strings.
Import ListNotations.

Local Open Scope Z_scope.

(** ** JavaScript arrays *)

Module JsArray.

(** Own properties keyed by integer, and the [length] property. *)
Record t (A : Type) : Type := mk { props : gmap Z A; length : Z }.
Arguments mk {A} _ _.
Arguments props {A} _.
Arguments length {A} _.

(** The literal [[]]. *)
Definition empty {A} : t A := mk ∅ 0.

(** [a[i]]: [None] stands for [undefined]. *)
Definition get {A} (a : t A) (i : Z) : option A := props a !! i.

(** [a[i] = v].  An array index is an integer in [0, 2^32 - 2]; writing
    at an index at or past [length] moves [length] to [i + 1].  Any other
    integer key (a negative one, say) is an ordinary property and leaves
    [length] alone. *)
Definition set {A} (a : t A) (i : Z) (v : A) : t A :=
  mk (<[i := v]> (props a))
     (if bool_decide (0 <= i < 2 ^ 32 - 1 ∧ length a <= i)
      then i + 1 else length a).

(** [a.push(v)]. *)
Definition push {A} (a : t A) (v : A) : t A :=
  mk (<[length a := v]> (props a)) (length a + 1).

End JsArray.

(** ** Outcomes and the state-and-exception monad *)

(** The only exception the program can raise is the [TypeError] of reading
    or writing a property of [undefined]. *)
Inductive exn : Type := TypeError.

Inductive outcome (A : Type) : Type :=
| Normal (a : A)
| Throw (e : exn).
Arguments Normal {A} _.
Arguments Throw {A} _.

Definition M (St A : Type) : Type := St -> outcome A * St.

Definition ret {St A} (a : A) : M St A := fun s => (Normal a, s).

Definition bind {St A B} (c : M St A) (k : A -> M St B) : M St B :=
  fun s =>
    match c s with
    | (Normal a, s') => k a s'
    | (Throw e, s') => (Throw e, s')
    end.

Definition gets {St A} (f : St -> A) : M St A := fun s => (Normal (f s), s).

Definition modify {St} (f : St -> St) : M St unit := fun s => (Normal tt, f s).

(** Run a computation that cannot mutate anything. *)
Definition lift {St A} (o : outcome A) : M St A := fun s => (o, s).

Declare Scope js_scope.
Delimit Scope js_scope with js.
Notation "x <- c ;; k" := (bind c (fun x => k))
  (at level 100, c at next level, right associativity) : js_scope.
Notation "c ;; k" := (bind c (fun _ => k))
  (at level 100, right associativity) : js_scope.

(** [for (let i = start; i < start + n; i++) body(i)] *)
Fixpoint for_up {St} (n : nat) (i : Z) (body : Z -> M St unit) : M St unit :=
  match n with
  | O => ret tt
  | S n' => (body i ;; for_up n' (i + 1) body)%js
  end.

(** [for (let i = start; i > start - n; i--) body(i)] *)
Fixpoint for_down {St} (n : nat) (i : Z) (body : Z -> M St unit) : M St unit :=
  match n with
  | O => ret tt
  | S n' => (body i ;; for_down n' (i - 1) body)%js
  end.

(** ** Pieces *)

(** Size of a chess board (number of ranks and files). *)
Definition SIZE : Z := 8.

(** A JavaScript string: a sequence of UTF-16 code units. *)
Definition jsstring : Type := list N.

Inductive Color : Type := WHITE | BLACK.

Inductive PieceType : Type := ROOK | KNIGHT | BISHOP | KING | QUEEN | PAWN.

(** [PieceType.character], a two-element array read at a [Color]: entry 0
    is the white glyph, entry 1 the black one. *)
Definition PieceType_character (t : PieceType) (c : Color) : jsstring :=
  match t, c with
  | ROOK, WHITE => [0x2656%N] | ROOK, BLACK => [0x265C%N]
  | KNIGHT, WHITE => [0x2658%N] | KNIGHT, BLACK => [0x265E%N]
  | BISHOP, WHITE => [0x2657%N] | BISHOP, BLACK => [0x265D%N]
  | KING, WHITE => [0x2654%N] | KING, BLACK => [0x265A%N]
  | QUEEN, WHITE => [0x2655%N] | QUEEN, BLACK => [0x265B%N]
  | PAWN, WHITE => [0x2659%N] | PAWN, BLACK => [0x265F%N]
  end.

Definition INITIAL : list PieceType :=
  [ROOK; KNIGHT; BISHOP; QUEEN; KING; BISHOP; KNIGHT; ROOK].

(** Reading a list literal at an integer index; [None] is [undefined]. *)
Definition index {A} (l : list A) (i : Z) : option A :=
  if bool_decide (0 <= i) then l !! Z.to_nat i else None.

(** Actual piece on the board.  [pieceType] is [None] when the constructor
    was handed [undefined], which is what [PieceType.INITIAL[file]] yields
    outside the literal. *)
Record Piece : Type := mkPiece { pieceType : option PieceType; color : Color }.

(** [piece.character()]: [this.pieceType.character[this.color]]. *)
Definition Piece_character (p : Piece) : outcome jsstring :=
  match pieceType p with
  | None => Throw TypeError
  | Some t => Normal (PieceType_character t (color p))
  end.

(** What a cell of the grid can hold at run time.  The declared type is
    [Piece | null]; [undefined] is what an out-of-range read returns. *)
Inductive SquareContent : Type :=
| undefined
| null
| piece (p : Piece).

Record SquarePosition : Type := mkPos { file : Z; rank : Z }.

Global Instance Color_eq_dec : EqDecision Color.
Proof. solve_decision. Defined.
Global Instance PieceType_eq_dec : EqDecision PieceType.
Proof. solve_decision. Defined.
Global Instance Piece_eq_dec : EqDecision Piece.
Proof. solve_decision. Defined.
Global Instance SquareContent_eq_dec : EqDecision SquareContent.
Proof. solve_decision. Defined.
Global Instance SquarePosition_eq_dec : EqDecision SquarePosition.
Proof. solve_decision. Defined.

(** ** The board *)

Record Board : Type := mkBoard {
  squares : JsArray.t (JsArray.t SquareContent);
  selectedSquare : option SquarePosition
}.

(** [this.selectedSquare = sel]. *)
Definition select (sel : option SquarePosition) (b : Board) : Board :=
  mkBoard (squares b) sel.

(** The conditional expression of the constructor's inner loop. *)
Definition initial_content (file rank : Z) : SquareContent :=
  if bool_decide (rank = 0) then piece (mkPiece (index INITIAL file) WHITE)
  else if bool_decide (rank = 1) then piece (mkPiece (Some PAWN) WHITE)
  else if bool_decide (rank = 6) then piece (mkPiece (Some PAWN) BLACK)
  else if bool_decide (rank = 7) then piece (mkPiece (index INITIAL file) BLACK)
  else null.

(** The inner loop: builds [rankPieces] for one file. *)
Definition rank_loop (file : Z) : M (JsArray.t SquareContent) unit :=
  for_up (Z.to_nat SIZE) 0
    (fun rank => modify (fun rankPieces =>
       JsArray.push rankPieces (initial_content file rank))).

(** The outer loop, run on [this.squares]. *)
Definition file_loop : M (JsArray.t (JsArray.t SquareContent)) unit :=
  for_up (Z.to_nat SIZE) 0
    (fun file => modify (fun squares =>
       JsArray.push squares (snd (rank_loop file JsArray.empty)))).

(** [new Board()]. *)
Definition Board_new : Board :=
  mkBoard (snd (file_loop JsArray.empty)) None.

(** The expression [this.squares[file][rank]]: indexing [undefined] throws,
    a missing element of the row reads as [undefined]. *)
Definition squares_at (b : Board) (file rank : Z) : outcome SquareContent :=
  match JsArray.get (squares b) file with
  | None => Throw TypeError
  | Some row => Normal (default undefined (JsArray.get row rank))
  end.

Definition Board_get (b : Board) (pos : SquarePosition) : outcome SquareContent :=
  squares_at b (file pos) (rank pos).

(** [this.squares[pos.file][pos.rank] = piece].  The row is an object held
    by exactly one slot of [squares], so the write is visible there and
    nowhere else. *)
Definition Board_set (pos : SquarePosition) (v : SquareContent) : M Board unit :=
  fun b =>
    match JsArray.get (squares b) (file pos) with
    | None => (Throw TypeError, b)
    | Some row =>
        (Normal tt,
         mkBoard (JsArray.mk (<[file pos := JsArray.set row (rank pos) v]>
                                (JsArray.props (squares b)))
                             (JsArray.length (squares b)))
                 (selectedSquare b))
    end.

(** ** The DOM *)

(** An element and its child nodes.  A child node is a text node or an
    element; [firstChild], [removeChild] and [append] work on child nodes
    of both sorts. *)
#[warnings="-register-all"]
Inductive Element : Type :=
| mkElement (localName : string) (classList : list string)
    (clickListeners : list (Z * Z)) (childNodes : list Node)
with Node : Type :=
| Text (data : jsstring)
| Elem (e : Element).

Definition localName (e : Element) : string :=
  match e with mkElement n _ _ _ => n end.

Definition classList (e : Element) : list string :=
  match e with mkElement _ cl _ _ => cl end.

Definition clickListeners (e : Element) : list (Z * Z) :=
  match e with mkElement _ _ ls _ => ls end.

Definition childNodes (e : Element) : list Node :=
  match e with mkElement _ _ _ ns => ns end.

Definition element_of (n : Node) : list Element :=
  match n with
  | Elem c => [c]
  | Text _ => []
  end.

(** [e.children]: the child nodes that are elements. *)
Definition children (e : Element) : list Element :=
  flat_map element_of (childNodes e).

(** [document.createElement(tag)]. *)
Definition createElement (tag : string) : Element :=
  mkElement tag [] [] [].

(** [e.classList.add(token)]: a token list holds each token once. *)
Definition classList_add (token : string) (e : Element) : Element :=
  mkElement (localName e)
    (if bool_decide (token ∈ classList e) then classList e
     else classList e ++ [token])
    (clickListeners e) (childNodes e).

(** [e.classList.toggle(token, force)]: adds when [force] is true and
    removes when it is false. *)
Definition classList_toggle (token : string) (force : bool) (e : Element) : Element :=
  if force then classList_add token e
  else mkElement (localName e)
         (filter (fun c => c ≠ token) (classList e))
         (clickListeners e) (childNodes e).

Definition set_childNodes (ns : list Node) (e : Element) : Element :=
  mkElement (localName e) (classList e) (clickListeners e) ns.

(** [e.innerText = text], for a text without line breaks: every child
    node is replaced by one text node, or by nothing when the text is
    empty. *)
Definition set_innerText (text : jsstring) (e : Element) : Element :=
  set_childNodes (match text with [] => [] | _ => [Text text] end) e.

(** [e.addEventListener("click", () => this.onSquareClick(file, rank))]:
    the closure is recorded as the coordinates it captured. *)
Definition addEventListener (file rank : Z) (e : Element) : Element :=
  mkElement (localName e) (classList e)
    (clickListeners e ++ [(file, rank)]) (childNodes e).

(** [e.append(child)]. *)
Definition append (child : Element) (e : Element) : Element :=
  set_childNodes (childNodes e ++ [Elem child]) e.

(** The loop of [clearElement]: while there is a first child node, remove
    it. *)
Fixpoint remove_children (ns : list Node) : list Node :=
  match ns with
  | [] => []
  | _ :: rest => remove_children rest
  end.

(** Remove all children from element. *)
Definition clearElement : M Element unit :=
  modify (fun e => set_childNodes (remove_children (childNodes e)) e).

(** Apply [f] to the last element of a list. *)
Fixpoint alter_last {A} (f : A -> A) (l : list A) : list A :=
  match l with
  | [] => []
  | [x] => [f x]
  | x :: rest => x :: alter_last f rest
  end.

(** Apply [f] to a node that is an element. *)
Definition in_element (f : Element -> Element) (n : Node) : Node :=
  match n with
  | Elem c => Elem (f c)
  | Text data => Text data
  end.

(** [rankElement.append(child)] seen from [element]: [rankElement] is the
    object that was appended to [element] last, so the new child shows up
    under the last child node of [element]. *)
Definition append_to_last (child : Element) (e : Element) : Element :=
  set_childNodes (alter_last (in_element (append child)) (childNodes e)) e.

(** ** Drawing *)

(** The body of the inner loop of [draw] up to the point where the new
    square element is appended: everything here works on an element that
    is not yet part of the tree. *)
Definition square_element (b : Board) (file rank : Z) : outcome Element :=
  match squares_at b file rank with
  | Throw e => Throw e
  | Normal piece_ =>
      let squareElement := createElement "div" in
      let squareElement := classList_add "square" squareElement in
      let isDark := bool_decide (Z.rem (rank + file) 2 = 0) in
      let squareElement := classList_toggle "square-light" (negb isDark) squareElement in
      let squareElement := classList_toggle "square-dark" isDark squareElement in
      let squareElement :=
        match selectedSquare b with
        | Some {| file := selected_file; rank := selected_rank |} =>
            if bool_decide (selected_file = file) && bool_decide (selected_rank = rank)
            then classList_add "square-selected" squareElement
            else squareElement
        | None => squareElement
        end in
      let text :=
        match piece_ with
        | null => Normal None
        | undefined => Throw TypeError
        | piece p =>
            match Piece_character p with
            | Normal s => Normal (Some s)
            | Throw e => Throw e
            end
        end in
      match text with
      | Throw e => Throw e
      | Normal text =>
          let squareElement :=
            match text with
            | Some s => set_innerText s squareElement
            | None => squareElement
            end in
          Normal (addEventListener file rank squareElement)
      end
  end.

(** Draw a chessboard into the element.  Replaces what was in the
    element. *)
Definition Board_draw (b : Board) : M Element unit :=
  (clearElement ;;
   for_down (Z.to_nat SIZE) (SIZE - 1) (fun rank =>
     modify (append (classList_add "rank" (createElement "div"))) ;;
     for_up (Z.to_nat SIZE) 0 (fun file =>
       squareElement <- lift (square_element b file rank) ;;
       modify (append_to_last squareElement))))%js.

(** ** The controller *)

(** The module's state: the [board] constant, the [sourceSquare] variable
    and the document's [body]. *)
Record World : Type := mkWorld {
  board : Board;
  sourceSquare : option SquarePosition;
  body : Element
}.

Definition on_board {A} (c : M Board A) : M World A :=
  fun w =>
    let (o, b) := c (board w) in (o, mkWorld b (sourceSquare w) (body w)).

Definition on_body {A} (c : M Element A) : M World A :=
  fun w =>
    let (o, e) := c (body w) in (o, mkWorld (board w) (sourceSquare w) e).

Definition board_get (pos : SquarePosition) : M World SquareContent :=
  fun w => (Board_get (board w) pos, w).

Definition board_set (pos : SquarePosition) (v : SquareContent) : M World unit :=
  on_board (Board_set pos v).

Definition set_selectedSquare (sel : option SquarePosition) : M World unit :=
  on_board (modify (select sel)).

Definition set_sourceSquare (src : option SquarePosition) : M World unit :=
  modify (fun w => mkWorld (board w) src (body w)).

(** [board.draw(body)]. *)
Definition board_draw : M World unit :=
  fun w => on_body (Board_draw (board w)) w.

(** [piece !== null]. *)
Definition not_null (c : SquareContent) : bool :=
  match c with null => false | _ => true end.

(** The handler assigned to [board.onSquareClick]. *)
Definition onSquareClick (file rank : Z) : M World unit :=
  (let pos := mkPos file rank in
   piece_ <- board_get pos ;;
   src <- gets sourceSquare ;;
   match src with
   | None =>
       if not_null piece_
       then set_selectedSquare (Some pos) ;; set_sourceSquare (Some pos)
       else ret tt
   | Some ({| file := source_file; rank := source_rank |} as sourceSquare) =>
       (if negb (bool_decide (file = source_file))
           || negb (bool_decide (rank = source_rank))
        then
          v <- board_get sourceSquare ;;
          board_set pos v ;;
          board_set sourceSquare null
        else ret tt) ;;
       set_selectedSquare None ;;
       set_sourceSquare None
   end ;;
   board_draw)%js.

(** The module's top level: construct the board, install the handler and
    draw once, into whatever [body] the page came with. *)
Definition main (body : Element) : outcome unit * World :=
  board_draw (mkWorld Board_new None body).

Definition after_main (body : Element) : World := snd (main body).

(** ** Well-formed boards

    The grid the program maintains: an 8-element array of 8-element arrays
    whose elements are [null] or a piece with a piece type. *)

Definition keys8 : gset Z := list_to_set (seqZ 0 SIZE).

Definition well_typed (c : SquareContent) : Prop :=
  match c with
  | undefined => False
  | null => True
  | piece p => is_Some (pieceType p)
  end.

Global Instance well_typed_dec c : Decision (well_typed c).
Proof. destruct c; simpl; apply _. Defined.

Definition wf_row (row : JsArray.t SquareContent) : Prop :=
  JsArray.length row = SIZE
  ∧ dom (JsArray.props row) = keys8
  ∧ map_Forall (fun _ c => well_typed c) (JsArray.props row).

Global Instance wf_row_dec row : Decision (wf_row row).
Proof. unfold wf_row. apply _. Defined.

Definition wf_board (b : Board) : Prop :=
  JsArray.length (squares b) = SIZE
  ∧ dom (JsArray.props (squares b)) = keys8
  ∧ map_Forall (fun _ row => wf_row row) (JsArray.props (squares b)).

Global Instance wf_board_dec b : Decision (wf_board b).
Proof. unfold wf_board. apply _. Defined.

(** A coordinate of the board. *)
Definition on_board_coord (i : Z) : Prop := 0 <= i < SIZE.

Definition in_range (pos : SquarePosition) : Prop :=
  on_board_coord (file pos) ∧ on_board_coord (rank pos).

Global Instance in_range_dec pos : Decision (in_range pos).
Proof. unfold in_range, on_board_coord. apply _. Defined.

(** Whether a square holds a piece. *)
Definition holds_piece (c : outcome SquareContent) : bool :=
  match c with
  | Normal (piece _) => true
  | _ => false
  end.

Definition occupied (b : Board) (pos : SquarePosition) : bool :=
  holds_piece (Board_get b pos).

(** The 64 squares, file by file. *)
Definition all_positions : list SquarePosition :=
  file ← seqZ 0 SIZE; rank ← seqZ 0 SIZE; [mkPos file rank].

Definition occupied_count (b : Board) : nat :=
  length (filter (fun pos => occupied b pos = true) all_positions).

(** The square elements below a container, row by row. *)
Definition square_elements (e : Element) : list Element :=
  concat (map children (children e)).

(** The states the page can be in: the one the module's top level leaves
    behind, and those reached from it by a click on a rendered square,
    which runs the listener registered on that square. *)
Inductive reachable : World -> Prop :=
| reachable_main (page : Element) : reachable (after_main page)
| reachable_click (w : World) (cell : Element) (file rank : Z) :
    reachable w ->
    cell ∈ square_elements (body w) ->
    (file, rank) ∈ clickListeners cell ->
    reachable (snd (onSquareClick file rank w)).

(** ** What [draw] builds *)

(** The indices a counting loop visits. *)
Fixpoint ups (n : nat) (i : Z) : list Z :=
  match n with O => [] | S n' => i :: ups n' (i + 1) end.

Fixpoint downs (n : nat) (i : Z) : list Z :=
  match n with O => [] | S n' => i :: downs n' (i - 1) end.

(** The content of a square of a well-formed board. *)
Definition content (b : Board) (file rank : Z) : SquareContent :=
  match squares_at b file rank with
  | Normal c => c
  | Throw _ => undefined
  end.

(** The child nodes of a drawn square: the glyph of the piece as one text
    node, or nothing. *)
Definition glyph_nodes (c : SquareContent) : list Node :=
  match c with
  | piece {| pieceType := Some t; color := col |} =>
      [Text (PieceType_character t col)]
  | _ => []
  end.

(** What [draw] builds for one square, one rank and the whole board. *)
Definition rendered_square (b : Board) (rank file : Z) : Element :=
  mkElement "div"
    (["square";
      if bool_decide (Z.rem (rank + file) 2 = 0)
      then "square-dark" else "square-light"]
     ++ (if bool_decide (selectedSquare b = Some (mkPos file rank))
         then ["square-selected"] else []))
    [(file, rank)]
    (glyph_nodes (content b file rank)).

Definition rendered_rank (b : Board) (rank : Z) : Element :=
  mkElement "div" ["rank"] []
    (map Elem (map (rendered_square b rank) [0; 1; 2; 3; 4; 5; 6; 7])).

Definition rendered (b : Board) : list Element :=
  map (rendered_rank b) [7; 6; 5; 4; 3; 2; 1; 0].

(** An element whose child nodes are replaced by the given elements. *)
Definition set_children (cs : list Element) (e : Element) : Element :=
  set_childNodes (map Elem cs) e.

(** ** States after a redraw *)

(** The world after a redraw of board [b] with [src] as armed square. *)
Definition redrawn (b : Board) (src : option SquarePosition) (w : World) : World :=
  mkWorld b src (set_children (rendered b) (body w)).

(** What holds of every state the page can be in. *)
Record invariant (w : World) : Prop := mkInvariant {
  inv_wf : wf_board (board w);
  inv_body : childNodes (body w) = map Elem (rendered (board w));
  inv_sync : selectedSquare (board w) = sourceSquare w;
  inv_source :
    ∀ s, sourceSquare w = Some s -> in_range s ∧ occupied (board w) s = true;
  inv_count : (occupied_count (board w) <= 32)%nat
}.

(** Whether a click lands on an occupied square other than the armed one:
    the case in which a relocation overwrites a piece. *)
Definition overwrites (w : World) (pos : SquarePosition) : bool :=
  match sourceSquare w with
  | Some src => bool_decide (src ≠ pos) && occupied (board w) pos
  | None => false
  end.

(** The squares other than (4,1) and (4,3). *)
Definition other_squares : list SquarePosition :=
  filter (fun q => q ≠ mkPos 4 1 ∧ q ≠ mkPos 4 3) all_positions.

(** ** Concrete runs *)

(** The page right after the module has run, and the same page after a
    click on the white pawn of file 4. *)
Definition idle_example : World := after_main (createElement "body").
Definition armed_example : World := snd (onSquareClick 4 1 idle_example).

(** Membership in a literal list of class names, decided by evaluation. *)
Ltac elem_of_literal :=
  match goal with
  | |- _ ∈ _ => apply (bool_decide_unpack _); vm_compute; exact I
  | H : _ ∈ _ |- _ =>
      apply (bool_decide_pack _) in H; vm_compute in H; destruct H
  end.

(** ** Vocabulary for the further properties *)

(** A square that [draw] can render: it reads as [null] or as a piece that
    has a piece type. *)
Definition drawable_at (b : Board) (file rank : Z) : Prop :=
  ∃ c, squares_at b file rank = Normal c ∧ well_typed c.

Global Instance drawable_at_dec (b : Board) (f r : Z) : Decision (drawable_at b f r).
Proof.
  unfold drawable_at. destruct (squares_at b f r) as [c|x].
  - destruct (decide (well_typed c)) as [Ht|Ht].
    + left. by exists c.
    + right. intros (c' & Hc & Ht'). by injection Hc as <-.
  - right. intros (c' & Hc & _). discriminate Hc.
Defined.

(** Whether a square holds a piece of a given kind. *)
Definition holds_kind (kind : Piece -> bool) (c : outcome SquareContent) : bool :=
  match c with
  | Normal (piece p) => kind p
  | _ => false
  end.

(** The number of squares of the board that hold a piece of that kind. *)
Definition kind_count (kind : Piece -> bool) (b : Board) : nat :=
  length (filter (fun pos => holds_kind kind (Board_get b pos) = true)
            all_positions).

(** The kind "white king". *)
Definition white_king (p : Piece) : bool :=
  bool_decide (pieceType p = Some KING) && bool_decide (color p = WHITE).

(** The coordinates captured by the click listeners below a container, in
    document order. *)
Definition listener_coordinates (e : Element) : list (Z * Z) :=
  concat (map clickListeners (square_elements e)).

(** * Properties *)

(** ** Arrays and well-formed boards *)

Lemma elem_of_keys8 (i : Z) : i ∈ keys8 ↔ on_board_coord i.
Proof.
  unfold keys8, on_board_coord, SIZE.
  rewrite elem_of_list_to_set, elem_of_seqZ. lia.
Qed.

Lemma keys8_lookup {A} (m : gmap Z A) (i : Z) :
  dom m = keys8 -> (is_Some (m !! i) ↔ on_board_coord i).
Proof. intros Hd. rewrite <- elem_of_dom, Hd. apply elem_of_keys8. Qed.

Lemma wf_board_row (b : Board) (file : Z) :
  wf_board b -> on_board_coord file ->
  ∃ row, JsArray.get (squares b) file = Some row ∧ wf_row row.
Proof.
  intros (_ & Hd & Hall) Hf.
  destruct (proj2 (keys8_lookup _ file Hd) Hf) as [row Hrow].
  exists row. split; [exact Hrow|]. exact (Hall _ _ Hrow).
Qed.

Lemma wf_board_no_row (b : Board) (file : Z) :
  wf_board b -> ¬ on_board_coord file -> JsArray.get (squares b) file = None.
Proof.
  intros (_ & Hd & _) Hf. unfold JsArray.get.
  apply eq_None_not_Some. intros Hs. apply Hf.
  by apply (keys8_lookup _ file Hd).
Qed.

Lemma wf_row_cell (row : JsArray.t SquareContent) (rank : Z) :
  wf_row row -> on_board_coord rank ->
  ∃ c, JsArray.get row rank = Some c ∧ well_typed c.
Proof.
  intros (_ & Hd & Hall) Hr.
  destruct (proj2 (keys8_lookup _ rank Hd) Hr) as [c Hc].
  exists c. split; [exact Hc|]. exact (Hall _ _ Hc).
Qed.

Lemma wf_row_no_cell (row : JsArray.t SquareContent) (rank : Z) :
  wf_row row -> ¬ on_board_coord rank -> JsArray.get row rank = None.
Proof.
  intros (_ & Hd & _) Hr. unfold JsArray.get.
  apply eq_None_not_Some. intros Hs. apply Hr.
  by apply (keys8_lookup _ rank Hd).
Qed.

Lemma squares_at_wf (b : Board) (file rank : Z) :
  wf_board b -> on_board_coord file -> on_board_coord rank ->
  ∃ c, squares_at b file rank = Normal c ∧ well_typed c.
Proof.
  intros Hwf Hf Hr.
  destruct (wf_board_row b file Hwf Hf) as (row & Hrow & Hwr).
  destruct (wf_row_cell row rank Hwr Hr) as (c & Hc & Ht).
  exists c. unfold squares_at. by rewrite Hrow, Hc.
Qed.

Lemma wf_row_set (row : JsArray.t SquareContent) (rank : Z) (v : SquareContent) :
  wf_row row -> on_board_coord rank -> well_typed v ->
  wf_row (JsArray.set row rank v).
Proof.
  intros (Hl & Hd & Hall) Hr Hv. unfold JsArray.set, wf_row; simpl.
  split; [|split].
  - rewrite bool_decide_eq_false_2; [exact Hl|].
    unfold on_board_coord in Hr. lia.
  - rewrite dom_insert_L, Hd.
    apply subseteq_union_1_L, singleton_subseteq_l, elem_of_keys8, Hr.
  - by apply map_Forall_insert_2.
Qed.

(** A write inside the grid succeeds, keeps the board well formed and the
    selection as it was, and is seen at the written square only. *)
Lemma Board_set_wf (b : Board) (pos : SquarePosition) (v : SquareContent) :
  wf_board b -> in_range pos -> well_typed v ->
  ∃ b', Board_set pos v b = (Normal tt, b')
        ∧ wf_board b'
        ∧ selectedSquare b' = selectedSquare b
        ∧ Board_get b' pos = Normal v
        ∧ ∀ q, q ≠ pos -> Board_get b' q = Board_get b q.
Proof.
  intros Hwf [Hf Hr] Hv.
  destruct (wf_board_row b (file pos) Hwf Hf) as (row & Hrow & Hwr).
  unfold Board_set. rewrite Hrow. eexists. split; [reflexivity|].
  destruct Hwf as (Hl & Hd & Hall).
  split; [|split; [reflexivity|split]].
  - unfold wf_board; simpl. split; [exact Hl|split].
    + rewrite dom_insert_L, Hd.
      apply subseteq_union_1_L, singleton_subseteq_l, elem_of_keys8, Hf.
    + apply map_Forall_insert_2; [|exact Hall]. by apply wf_row_set.
  - unfold Board_get, squares_at, JsArray.get, JsArray.set; simpl.
    rewrite lookup_insert_eq; simpl. by rewrite lookup_insert_eq.
  - intros q Hq. unfold Board_get, squares_at, JsArray.get; simpl.
    destruct (decide (file pos = file q)) as [Hfe|Hfe].
    + rewrite <- Hfe, lookup_insert_eq. unfold JsArray.get in Hrow. rewrite Hrow.
      unfold JsArray.set; simpl. rewrite lookup_insert_ne; [reflexivity|].
      intros Hre. apply Hq. destruct q, pos; simpl in *; congruence.
    + by rewrite lookup_insert_ne.
Qed.

(** ** Drawing a well-formed board *)

Lemma remove_children_nil (ns : list Node) : remove_children ns = [].
Proof. induction ns as [|n ns IH]; [reflexivity | exact IH]. Qed.

Lemma children_map_Elem (cs : list Element) :
  flat_map element_of (map Elem cs) = cs.
Proof. induction cs as [|c cs IH]; [reflexivity|]. simpl. by rewrite IH. Qed.

Lemma children_set_children (cs : list Element) (e : Element) :
  children (set_children cs e) = cs.
Proof. apply children_map_Elem. Qed.

Lemma set_childNodes_id (e : Element) : set_childNodes (childNodes e) e = e.
Proof. by destruct e. Qed.

Lemma alter_last_snoc {A} (f : A -> A) (l : list A) (x : A) :
  alter_last f (l ++ [x]) = l ++ [f x].
Proof.
  induction l as [|y l IH]; [reflexivity|].
  simpl. rewrite IH. destruct l; reflexivity.
Qed.

Lemma square_element_wf (b : Board) (file rank : Z) :
  wf_board b -> on_board_coord file -> on_board_coord rank ->
  square_element b file rank = Normal (rendered_square b rank file).
Proof.
  intros Hwf Hf Hr.
  destruct (squares_at_wf b file rank Hwf Hf Hr) as (c & Hc & Ht).
  unfold square_element, rendered_square, content. rewrite Hc.
  assert (Hsel : match selectedSquare b with
                 | Some {| file := sf; rank := sr |} =>
                     bool_decide (sf = file) && bool_decide (sr = rank)
                 | None => false
                 end = bool_decide (selectedSquare b = Some (mkPos file rank))).
  { destruct (selectedSquare b) as [[sf sr]|].
    - destruct (decide (sf = file)) as [->|Hn].
      + rewrite (bool_decide_eq_true_2 (file = file)) by reflexivity. simpl.
        apply bool_decide_ext. split; [by intros ->|congruence].
      + rewrite (bool_decide_eq_false_2 (sf = file)) by exact Hn. simpl.
        symmetry. apply bool_decide_eq_false_2. congruence.
    - symmetry. by apply bool_decide_eq_false_2. }
  destruct (bool_decide (selectedSquare b = Some (mkPos file rank))) eqn:Es;
    destruct (selectedSquare b) as [[sf sr]|]; try discriminate Hsel;
    try rewrite Hsel;
    destruct (bool_decide (Z.rem (rank + file) 2 = 0));
    destruct c as [| |[[t|] col]]; simpl in Ht; try contradiction;
    try (destruct Ht; discriminate);
    first [reflexivity | destruct t, col; reflexivity].
Qed.

Lemma bind_normal {St A B} (c : M St A) (k : A -> M St B) (s s' : St) (a : A) :
  c s = (Normal a, s') -> bind c k s = k a s'.
Proof. intros H. unfold bind. by rewrite H. Qed.

Section DrawLoops.

Variable b : Board.
Hypothesis Hwf : wf_board b.

(** One turn of the inner loop: the new square goes under the rank
    element, which is the last child node of the container. *)
Lemma draw_square_step (rank file : Z) (e rankElement : Element)
    (ns : list Node) :
  on_board_coord rank -> on_board_coord file ->
  (squareElement <- lift (square_element b file rank) ;;
   modify (append_to_last squareElement))%js
    (set_childNodes (ns ++ [Elem rankElement]) e)
  = (Normal tt,
     set_childNodes
       (ns ++ [Elem (append (rendered_square b rank file) rankElement)]) e).
Proof.
  intros Hr Hf.
  rewrite (bind_normal _ _ _ (set_childNodes (ns ++ [Elem rankElement]) e)
             (rendered_square b rank file)).
  - unfold modify, append_to_last. destruct e. simpl.
    by rewrite alter_last_snoc.
  - unfold lift. by rewrite square_element_wf.
Qed.

Lemma draw_file_loop (rank : Z) (n : nat) :
  on_board_coord rank ->
  ∀ (i : Z) (e rankElement : Element) (ns : list Node),
    0 <= i -> i + Z.of_nat n <= SIZE ->
    for_up n i (fun file =>
      squareElement <- lift (square_element b file rank) ;;
      modify (append_to_last squareElement))%js
      (set_childNodes (ns ++ [Elem rankElement]) e)
    = (Normal tt,
       set_childNodes
         (ns ++ [Elem (set_childNodes
                         (childNodes rankElement
                          ++ map Elem (map (rendered_square b rank) (ups n i)))
                         rankElement)]) e).
Proof.
  intros Hr. induction n as [|n IH]; intros i e rankElement ns Hi Hn.
  - simpl. unfold ret. rewrite app_nil_r.
    by rewrite set_childNodes_id.
  - cbn [for_up ups map].
    erewrite bind_normal;
      [|apply draw_square_step; [exact Hr|unfold on_board_coord; lia]].
    rewrite (IH (i + 1)) by lia.
    unfold append. destruct rankElement. simpl. by rewrite <- app_assoc.
Qed.

(** One turn of the outer loop appends the finished rank element. *)
Lemma draw_rank_step (rank : Z) (e : Element) :
  on_board_coord rank ->
  (modify (append (classList_add "rank" (createElement "div"))) ;;
   for_up (Z.to_nat SIZE) 0 (fun file =>
     squareElement <- lift (square_element b file rank) ;;
     modify (append_to_last squareElement)))%js e
  = (Normal tt, append (rendered_rank b rank) e).
Proof.
  intros Hr.
  erewrite bind_normal; [|reflexivity].
  unfold append at 1.
  rewrite draw_file_loop; [reflexivity|exact Hr|lia|unfold SIZE; simpl; lia].
Qed.

Lemma draw_rank_loop (n : nat) :
  ∀ (i : Z) (e : Element),
    i < SIZE -> Z.of_nat n <= i + 1 ->
    for_down n i (fun rank =>
      modify (append (classList_add "rank" (createElement "div"))) ;;
      for_up (Z.to_nat SIZE) 0 (fun file =>
        squareElement <- lift (square_element b file rank) ;;
        modify (append_to_last squareElement)))%js e
    = (Normal tt,
       set_childNodes
         (childNodes e ++ map Elem (map (rendered_rank b) (downs n i))) e).
Proof.
  induction n as [|n IH]; intros i e Hi Hn.
  - simpl. unfold ret. rewrite app_nil_r. by rewrite set_childNodes_id.
  - cbn [for_down downs map].
    erewrite bind_normal; [|apply draw_rank_step; unfold on_board_coord; lia].
    rewrite (IH (i - 1)) by lia.
    unfold append. destruct e. simpl. by rewrite <- app_assoc.
Qed.

(** [draw] returns normally and replaces the child nodes of the container
    by the rendering of the board. *)
Lemma Board_draw_wf (e : Element) :
  Board_draw b e = (Normal tt, set_children (rendered b) e).
Proof.
  unfold Board_draw.
  erewrite bind_normal; [|reflexivity].
  rewrite draw_rank_loop by (unfold SIZE; simpl; lia).
  destruct e. simpl. by rewrite remove_children_nil.
Qed.

End DrawLoops.

(** ** The click handler on a well-formed board *)

Lemma Board_get_select (sel : option SquarePosition) (b : Board) (pos : SquarePosition) :
  Board_get (select sel b) pos = Board_get b pos.
Proof. reflexivity. Qed.

Lemma board_draw_wf (w : World) :
  wf_board (board w) ->
  board_draw w = (Normal tt, redrawn (board w) (sourceSquare w) w).
Proof.
  intros Hwf. unfold board_draw, on_body. by rewrite Board_draw_wf.
Qed.

Lemma Board_get_wf (b : Board) (pos : SquarePosition) :
  wf_board b -> in_range pos ->
  ∃ c, Board_get b pos = Normal c ∧ well_typed c.
Proof. intros Hwf [Hf Hr]. by apply squares_at_wf. Qed.

(** Idle, click on a square that is not [null]: the square is selected. *)
Lemma click_idle_select (w : World) (file rank : Z) (c : SquareContent) :
  wf_board (board w) ->
  sourceSquare w = None ->
  Board_get (board w) (mkPos file rank) = Normal c ->
  not_null c = true ->
  onSquareClick file rank w
  = (Normal tt,
     redrawn (select (Some (mkPos file rank)) (board w))
             (Some (mkPos file rank)) w).
Proof.
  intros Hwf Hsrc Hget Hc. unfold onSquareClick.
  erewrite bind_normal; [|unfold board_get; by rewrite Hget].
  erewrite bind_normal; [|reflexivity].
  rewrite Hsrc, Hc.
  erewrite bind_normal; [|reflexivity].
  by rewrite board_draw_wf.
Qed.

(** Idle, click on an empty square: only the redraw happens. *)
Lemma click_idle_empty (w : World) (file rank : Z) :
  wf_board (board w) ->
  sourceSquare w = None ->
  Board_get (board w) (mkPos file rank) = Normal null ->
  onSquareClick file rank w = (Normal tt, redrawn (board w) None w).
Proof.
  intros Hwf Hsrc Hget. unfold onSquareClick.
  erewrite bind_normal; [|unfold board_get; by rewrite Hget].
  erewrite bind_normal; [|reflexivity].
  rewrite Hsrc. simpl not_null. cbv iota.
  erewrite bind_normal; [|reflexivity].
  by rewrite board_draw_wf, Hsrc.
Qed.

(** Armed, click on the source square: the selection is dropped. *)
Lemma click_armed_same (w : World) (file rank : Z) (c : SquareContent) :
  wf_board (board w) ->
  sourceSquare w = Some (mkPos file rank) ->
  Board_get (board w) (mkPos file rank) = Normal c ->
  onSquareClick file rank w = (Normal tt, redrawn (select None (board w)) None w).
Proof.
  intros Hwf Hsrc Hget. unfold onSquareClick.
  erewrite bind_normal; [|unfold board_get; by rewrite Hget].
  erewrite bind_normal; [|reflexivity].
  rewrite Hsrc.
  rewrite !(bool_decide_eq_true_2 _ eq_refl). simpl negb. simpl orb. cbv iota.
  erewrite bind_normal; [|reflexivity].
  by rewrite board_draw_wf.
Qed.

(** Armed, click on another square: the content of the source square is
    written to the clicked square, then [null] to the source square. *)
Lemma click_armed_move (w : World) (file rank : Z) (src : SquarePosition)
    (v : SquareContent) (b1 b2 : Board) :
  wf_board b2 ->
  sourceSquare w = Some src ->
  src ≠ mkPos file rank ->
  is_Some (JsArray.get (squares (board w)) file) ->
  Board_get (board w) src = Normal v ->
  Board_set (mkPos file rank) v (board w) = (Normal tt, b1) ->
  Board_set src null b1 = (Normal tt, b2) ->
  onSquareClick file rank w = (Normal tt, redrawn (select None b2) None w).
Proof.
  intros Hwf Hsrc Hne [row Hrow] Hget Hset1 Hset2. unfold onSquareClick.
  erewrite bind_normal;
    [|unfold board_get, Board_get, squares_at; simpl; by rewrite Hrow].
  erewrite bind_normal; [|reflexivity].
  rewrite Hsrc. destruct src as [sf sr].
  assert (Hor : negb (bool_decide (file = sf)) || negb (bool_decide (rank = sr)) = true).
  { destruct (decide (file = sf)) as [->|Hf].
    - destruct (decide (rank = sr)) as [->|Hr]; [congruence|].
      rewrite (bool_decide_eq_false_2 _ Hr). apply orb_true_r.
    - by rewrite (bool_decide_eq_false_2 _ Hf). }
  rewrite Hor. cbv iota.
  assert (Hmove :
    (v0 <- board_get (mkPos sf sr) ;;
     board_set (mkPos file rank) v0 ;;
     board_set (mkPos sf sr) null)%js w
    = (Normal tt, mkWorld b2 (sourceSquare w) (body w))).
  { erewrite bind_normal; [|unfold board_get; by rewrite Hget].
    erewrite bind_normal; [|unfold board_set, on_board; by rewrite Hset1].
    unfold board_set, on_board. simpl. by rewrite Hset2. }
  erewrite bind_normal; cycle 1.
  { erewrite bind_normal; [|exact Hmove].
    erewrite bind_normal; reflexivity. }
  by rewrite board_draw_wf.
Qed.

(** ** Counting occupied squares *)

Lemma all_positions_NoDup : NoDup all_positions.
Proof. apply (bool_decide_unpack _). vm_compute. exact I. Qed.

Lemma elem_of_all_positions (pos : SquarePosition) :
  pos ∈ all_positions ↔ in_range pos.
Proof.
  unfold all_positions, in_range, on_board_coord. split.
  - intros H. apply list_elem_of_bind in H as (f & H & Hf).
    apply list_elem_of_bind in H as (r & H & Hr).
    apply list_elem_of_singleton in H. subst pos. simpl.
    apply elem_of_seqZ in Hf. apply elem_of_seqZ in Hr. lia.
  - intros [Hf Hr]. apply list_elem_of_bind. exists (file pos). split.
    + apply list_elem_of_bind. exists (rank pos). split.
      * destruct pos. simpl. apply list_elem_of_singleton. reflexivity.
      * apply elem_of_seqZ. lia.
    + apply elem_of_seqZ. lia.
Qed.

Section Counting.

Variables P Q : SquarePosition -> bool.
Variable x : SquarePosition.
Hypothesis Hagree : ∀ q, q ≠ x -> P q = Q q.

Lemma count_agree (l : list SquarePosition) :
  x ∉ l ->
  filter (fun q => Q q = true) l = filter (fun q => P q = true) l.
Proof.
  induction l as [|y l IH]; intros Hx; [reflexivity|].
  apply not_elem_of_cons in Hx as [Hxy Hxl].
  rewrite !filter_cons, (IH Hxl), (Hagree y) by congruence.
  reflexivity.
Qed.

Lemma count_update (l : list SquarePosition) :
  NoDup l -> x ∈ l ->
  (length (filter (fun q => Q q = true) l) + Nat.b2n (P x)
   = length (filter (fun q => P q = true) l) + Nat.b2n (Q x))%nat.
Proof.
  induction l as [|y l IH]; intros Hnd Hx; [by apply elem_of_nil in Hx|].
  apply NoDup_cons in Hnd as [Hyl Hnd].
  rewrite !filter_cons.
  destruct (decide (y = x)) as [->|Hyx].
  - rewrite (count_agree l Hyl).
    destruct (P x), (Q x); repeat case_decide; simpl; congruence || lia.
  - apply elem_of_cons in Hx as [Hx|Hx]; [congruence|].
    specialize (IH Hnd Hx). rewrite (Hagree y Hyx).
    case_decide; simpl; lia.
Qed.

End Counting.

(** A write changes the count by what it removes and what it puts. *)
Lemma occupied_count_set (b b' : Board) (pos : SquarePosition) (v : SquareContent) :
  in_range pos ->
  Board_get b' pos = Normal v ->
  (∀ q, q ≠ pos -> Board_get b' q = Board_get b q) ->
  (occupied_count b' + Nat.b2n (occupied b pos)
   = occupied_count b + Nat.b2n (holds_piece (Normal v)))%nat.
Proof.
  intros Hin Hget Hframe. unfold occupied_count.
  rewrite (count_update (occupied b) (occupied b') pos).
  - unfold occupied at 3. by rewrite Hget.
  - intros q Hq. unfold occupied. by rewrite Hframe.
  - exact all_positions_NoDup.
  - by apply elem_of_all_positions.
Qed.

Lemma occupied_count_select (sel : option SquarePosition) (b : Board) :
  occupied_count (select sel b) = occupied_count b.
Proof. reflexivity. Qed.

(** The whole relocation on a well-formed board. *)
Lemma click_armed_move_wf (w : World) (file rank : Z) (src : SquarePosition) :
  wf_board (board w) ->
  sourceSquare w = Some src ->
  in_range src -> in_range (mkPos file rank) ->
  src ≠ mkPos file rank ->
  ∃ v b',
    Board_get (board w) src = Normal v
    ∧ onSquareClick file rank w = (Normal tt, redrawn (select None b') None w)
    ∧ wf_board b'
    ∧ Board_get b' (mkPos file rank) = Normal v
    ∧ Board_get b' src = Normal null
    ∧ (∀ q, q ≠ mkPos file rank -> q ≠ src ->
         Board_get b' q = Board_get (board w) q)
    ∧ (occupied_count b' + Nat.b2n (occupied (board w) (mkPos file rank))
       = occupied_count (board w))%nat.
Proof.
  intros Hwf Hsrc Hins Hinp Hne.
  destruct (Board_get_wf _ _ Hwf Hins) as (v & Hv & Htv).
  destruct (Board_set_wf _ (mkPos file rank) v Hwf Hinp Htv)
    as (b1 & Hset1 & Hwf1 & _ & Hget1 & Hframe1).
  destruct (Board_set_wf b1 src null Hwf1 Hins I)
    as (b2 & Hset2 & Hwf2 & _ & Hget2 & Hframe2).
  exists v, b2. split; [exact Hv|]. split; [|split; [exact Hwf2|split; [|split; [exact Hget2|split]]]].
  - eapply click_armed_move; eauto.
    destruct (wf_board_row _ file Hwf (proj1 Hinp)) as (row & Hrow & _). eauto.
  - rewrite Hframe2 by congruence. exact Hget1.
  - intros q Hq1 Hq2. rewrite Hframe2, Hframe1 by assumption. reflexivity.
  - pose proof (occupied_count_set _ _ _ _ Hinp Hget1 Hframe1) as Hc1.
    pose proof (occupied_count_set _ _ _ _ Hins Hget2 Hframe2) as Hc2.
    assert (Hocc : occupied b1 src = holds_piece (Normal v)).
    { unfold occupied. rewrite Hframe1 by exact Hne. by rewrite Hv. }
    rewrite Hocc in Hc2.
    change (Nat.b2n (holds_piece (Normal null))) with 0%nat in Hc2. lia.
Qed.

(** ** Reachable states *)

(** Every listener on a square of a rendering carries the coordinates of a
    square of the board. *)
Lemma rendered_listener (b : Board) (cell : Element) (file rank : Z) :
  cell ∈ concat (map children (rendered b)) ->
  (file, rank) ∈ clickListeners cell ->
  in_range (mkPos file rank).
Proof.
  intros Hc Hl.
  apply list_elem_of_In, in_concat in Hc as (cs & Hcs & Hc).
  apply in_map_iff in Hcs as (row & <- & Hrow).
  unfold rendered in Hrow. apply in_map_iff in Hrow as (r & <- & Hr).
  change (children (rendered_rank b r))
    with (map (rendered_square b r) [0; 1; 2; 3; 4; 5; 6; 7]) in Hc.
  apply in_map_iff in Hc as (f & <- & Hf).
  cbn [rendered_square clickListeners] in Hl.
  apply list_elem_of_singleton in Hl. injection Hl as -> ->.
  unfold in_range, on_board_coord, SIZE. simpl in *. intuition lia.
Qed.

Lemma board_redrawn (b : Board) (src : option SquarePosition) (w : World) :
  board (redrawn b src w) = b.
Proof. reflexivity. Qed.

Lemma inv_children (w : World) :
  invariant w -> children (body w) = rendered (board w).
Proof.
  intros Hinv. unfold children. rewrite (inv_body _ Hinv).
  apply children_map_Elem.
Qed.

Lemma invariant_redrawn (b : Board) (src : option SquarePosition) (w : World) :
  wf_board b ->
  selectedSquare b = src ->
  (∀ s, src = Some s -> in_range s ∧ occupied b s = true) ->
  (occupied_count b <= 32)%nat ->
  invariant (redrawn b src w).
Proof. intros. by constructor. Qed.

Lemma Board_new_wf : wf_board Board_new.
Proof. apply (bool_decide_unpack _). vm_compute. exact I. Qed.

Lemma Board_new_count : occupied_count Board_new = 32%nat.
Proof. vm_compute. reflexivity. Qed.

Lemma after_main_eq (page : Element) :
  main page = (Normal tt, redrawn Board_new None (mkWorld Board_new None page)).
Proof. unfold main. rewrite board_draw_wf; [reflexivity|exact Board_new_wf]. Qed.

Lemma invariant_main (page : Element) : invariant (after_main page).
Proof.
  unfold after_main. rewrite after_main_eq. apply invariant_redrawn.
  - exact Board_new_wf.
  - reflexivity.
  - intros s Hs. discriminate Hs.
  - rewrite Board_new_count. lia.
Qed.

(** A click on a square of the board returns normally, keeps the invariant
    and removes at most the piece that a relocation overwrites. *)
Lemma click_invariant (w : World) (file rank : Z) :
  invariant w -> in_range (mkPos file rank) ->
  ∃ w', onSquareClick file rank w = (Normal tt, w')
        ∧ invariant w'
        ∧ (occupied_count (board w') + Nat.b2n (overwrites w (mkPos file rank))
           = occupied_count (board w))%nat.
Proof.
  intros [Hwf Hbody Hsync Hsource Hcount] Hin.
  destruct (Board_get_wf _ _ Hwf Hin) as (c & Hc & Htc).
  unfold overwrites.
  destruct (sourceSquare w) as [src|] eqn:Hsrc.
  - destruct (Hsource src eq_refl) as [Hins Hocc].
    destruct (decide (src = mkPos file rank)) as [->|Hne].
    + eexists. split; [by eapply click_armed_same|].
      rewrite bool_decide_eq_false_2 by (intros Hn; by apply Hn).
      split; [|rewrite board_redrawn, occupied_count_select; simpl; lia].
      apply invariant_redrawn; [exact Hwf|reflexivity|discriminate|].
      by rewrite occupied_count_select.
    + destruct (click_armed_move_wf w file rank src Hwf Hsrc Hins Hin Hne)
        as (v & b' & Hv & Hclick & Hwf' & _ & _ & _ & Hcnt).
      eexists. split; [exact Hclick|].
      rewrite bool_decide_eq_true_2 by exact Hne.
      split; [|rewrite board_redrawn, occupied_count_select; exact Hcnt].
      apply invariant_redrawn; [exact Hwf'|reflexivity|discriminate|].
      rewrite occupied_count_select. lia.
  - destruct c as [| |p]; [contradiction| |].
    + eexists. split; [by eapply click_idle_empty|].
      split; [|rewrite board_redrawn; simpl; lia].
      apply invariant_redrawn; [exact Hwf|exact Hsync|discriminate|exact Hcount].
    + eexists. split; [by eapply click_idle_select|].
      split; [|rewrite board_redrawn, occupied_count_select; simpl; lia].
      apply invariant_redrawn; [exact Hwf|reflexivity| |by rewrite occupied_count_select].
      intros s [= <-]. split; [exact Hin|].
      unfold occupied. by rewrite Board_get_select, Hc.
Qed.

Lemma reachable_invariant (w : World) : reachable w -> invariant w.
Proof.
  induction 1 as [page|w cell file rank Hreach IH Hcell Hlistener].
  - apply invariant_main.
  - assert (Hin : in_range (mkPos file rank)).
    { eapply rendered_listener; [|exact Hlistener].
      unfold square_elements in Hcell. by rewrite (inv_children _ IH) in Hcell. }
    destruct (click_invariant w file rank IH Hin) as (w' & Hclick & Hinv & _).
    by rewrite Hclick.
Qed.

(** * The specification, property by property *)

(** ** The initial layout *)

(** C1: on a freshly constructed board, rank 0 holds ROOK, KNIGHT, BISHOP,
    QUEEN, KING, BISHOP, KNIGHT, ROOK at files 0 to 7 in white (the first
    player's colour) and rank 7 the same sequence in black; rank 1 holds
    eight white pawns and rank 6 eight black pawns; every square of ranks
    2 to 5 is empty; exactly 32 squares are occupied. *)
Theorem C1_initial_layout (file : Z) :
  on_board_coord file ->
  ∃ t : PieceType,
    [ROOK; KNIGHT; BISHOP; QUEEN; KING; BISHOP; KNIGHT; ROOK] !! Z.to_nat file
      = Some t
    ∧ Board_get Board_new (mkPos file 0) = Normal (piece (mkPiece (Some t) WHITE))
    ∧ Board_get Board_new (mkPos file 7) = Normal (piece (mkPiece (Some t) BLACK))
    ∧ Board_get Board_new (mkPos file 1)
      = Normal (piece (mkPiece (Some PAWN) WHITE))
    ∧ Board_get Board_new (mkPos file 6)
      = Normal (piece (mkPiece (Some PAWN) BLACK))
    ∧ (∀ rank, 2 <= rank <= 5 ->
         Board_get Board_new (mkPos file rank) = Normal null)
    ∧ occupied_count Board_new = 32%nat.
Proof.
  intros Hf. unfold on_board_coord, SIZE in Hf.
  assert (Hcases : file = 0 ∨ file = 1 ∨ file = 2 ∨ file = 3
                   ∨ file = 4 ∨ file = 5 ∨ file = 6 ∨ file = 7) by lia.
  assert (Hranks : ∀ rank, 2 <= rank <= 5 ->
                     rank = 2 ∨ rank = 3 ∨ rank = 4 ∨ rank = 5) by (intros; lia).
  destruct Hcases as [->|[->|[->|[->|[->|[->|[->| ->]]]]]]];
    eexists; (split; [reflexivity|]);
    repeat (split; [vm_compute; reflexivity|]);
    (split; [|exact Board_new_count]);
    intros rank Hr; destruct (Hranks rank Hr) as [->|[->|[->| ->]]];
    vm_compute; reflexivity.
Qed.

(** The layout of file 3, the queen's file. *)
Lemma C1_initial_layout_witness :
  ∃ t : PieceType,
    [ROOK; KNIGHT; BISHOP; QUEEN; KING; BISHOP; KNIGHT; ROOK] !! Z.to_nat 3
      = Some t
    ∧ Board_get Board_new (mkPos 3 0) = Normal (piece (mkPiece (Some t) WHITE))
    ∧ Board_get Board_new (mkPos 3 7) = Normal (piece (mkPiece (Some t) BLACK))
    ∧ Board_get Board_new (mkPos 3 1)
      = Normal (piece (mkPiece (Some PAWN) WHITE))
    ∧ Board_get Board_new (mkPos 3 6)
      = Normal (piece (mkPiece (Some PAWN) BLACK))
    ∧ (∀ rank, 2 <= rank <= 5 ->
         Board_get Board_new (mkPos 3 rank) = Normal null)
    ∧ occupied_count Board_new = 32%nat.
Proof. apply (C1_initial_layout 3). unfold on_board_coord, SIZE. lia. Defined.

(** ** Reads and writes outside the grid *)

(** C3, as stated, fails: square (file 0, rank 8) is outside the grid, yet
    reading it returns [undefined] and writing it completes normally. *)
Lemma C3_counterexample :
  ¬ in_range (mkPos 0 8)
  ∧ Board_get Board_new (mkPos 0 8) = Normal undefined
  ∧ fst (Board_set (mkPos 0 8) null Board_new) = Normal tt.
Proof.
  split; [|split; vm_compute; reflexivity].
  unfold in_range, on_board_coord, SIZE. simpl. lia.
Qed.

(** C3, amended: on the 8x8 grid, with integer coordinates, [get] and
    [set] raise (a [TypeError]) when the file is outside 0..7, and [set]
    then leaves the board as it was.  When the file is inside 0..7 and the
    rank is outside, nothing is raised: [get] returns [undefined], and
    [set] completes, stores the value under that rank in the file's row and
    leaves every other square as it was. *)
Theorem C3_out_of_range (b : Board) (pos : SquarePosition) (v : SquareContent) :
  wf_board b ->
  ¬ in_range pos ->
  (¬ on_board_coord (file pos)
   ∧ Board_get b pos = Throw TypeError
   ∧ Board_set pos v b = (Throw TypeError, b))
  ∨ (on_board_coord (file pos) ∧ ¬ on_board_coord (rank pos)
     ∧ Board_get b pos = Normal undefined
     ∧ ∃ b', Board_set pos v b = (Normal tt, b')
             ∧ Board_get b' pos = Normal v
             ∧ ∀ q, q ≠ pos -> Board_get b' q = Board_get b q).
Proof.
  intros Hwf Hout.
  destruct (decide (on_board_coord (file pos))) as [Hf|Hf].
  - right. assert (Hr : ¬ on_board_coord (rank pos)).
    { intros Hr. apply Hout. by split. }
    destruct (wf_board_row b (file pos) Hwf Hf) as (row & Hrow & Hwr).
    split; [exact Hf|split; [exact Hr|split]].
    + unfold Board_get, squares_at.
      by rewrite Hrow, (wf_row_no_cell row _ Hwr Hr).
    + unfold Board_set. rewrite Hrow. eexists. split; [reflexivity|split].
      * unfold Board_get, squares_at, JsArray.get, JsArray.set; simpl.
        rewrite lookup_insert_eq; simpl. by rewrite lookup_insert_eq.
      * intros q Hq. unfold Board_get, squares_at, JsArray.get; simpl.
        destruct (decide (file pos = file q)) as [Hfe|Hfe].
        -- rewrite <- Hfe, lookup_insert_eq.
           unfold JsArray.get in Hrow. rewrite Hrow.
           unfold JsArray.set; simpl. rewrite lookup_insert_ne; [reflexivity|].
           intros Hre. apply Hq. destruct q, pos; simpl in *; congruence.
        -- by rewrite lookup_insert_ne.
  - left. split; [exact Hf|].
    pose proof (wf_board_no_row b (file pos) Hwf Hf) as Hnone.
    unfold Board_get, squares_at, Board_set. by rewrite Hnone.
Qed.

(** Rank -1 of file 0 of the initial board. *)
Lemma C3_out_of_range_witness :
  (¬ on_board_coord 0
   ∧ Board_get Board_new (mkPos 0 (-1)) = Throw TypeError
   ∧ Board_set (mkPos 0 (-1)) null Board_new = (Throw TypeError, Board_new))
  ∨ (on_board_coord 0 ∧ ¬ on_board_coord (-1)
     ∧ Board_get Board_new (mkPos 0 (-1)) = Normal undefined
     ∧ ∃ b', Board_set (mkPos 0 (-1)) null Board_new = (Normal tt, b')
             ∧ Board_get b' (mkPos 0 (-1)) = Normal null
             ∧ ∀ q, q ≠ mkPos 0 (-1) -> Board_get b' q = Board_get Board_new q).
Proof.
  apply (C3_out_of_range Board_new (mkPos 0 (-1)) null).
  - apply (bool_decide_unpack _). vm_compute. exact I.
  - unfold in_range, on_board_coord, SIZE. simpl. lia.
Defined.

(** ** Redraw fidelity *)

Lemma rendered_square_dark (b : Board) (rank file : Z) :
  "square-dark" ∈ classList (rendered_square b rank file)
  ↔ Z.rem (file + rank) 2 = 0.
Proof.
  unfold rendered_square; cbn [classList]. rewrite (Z.add_comm file rank).
  destruct (bool_decide (selectedSquare b = Some (mkPos file rank)));
    case_bool_decide; split; intros Hx;
    first [assumption | contradiction | elem_of_literal].
Qed.

Lemma rendered_square_light (b : Board) (rank file : Z) :
  "square-light" ∈ classList (rendered_square b rank file)
  ↔ Z.rem (file + rank) 2 ≠ 0.
Proof.
  unfold rendered_square; cbn [classList]. rewrite (Z.add_comm file rank).
  destruct (bool_decide (selectedSquare b = Some (mkPos file rank)));
    case_bool_decide; split; intros Hx;
    first [assumption | contradiction | elem_of_literal].
Qed.

Lemma rendered_square_selected (b : Board) (rank file : Z) :
  "square-selected" ∈ classList (rendered_square b rank file)
  ↔ selectedSquare b = Some (mkPos file rank).
Proof.
  unfold rendered_square; cbn [classList].
  destruct (bool_decide (Z.rem (rank + file) 2 = 0));
    case_bool_decide; split; intros Hx;
    first [assumption | contradiction | elem_of_literal].
Qed.

Lemma rendered_rank_lookup (b : Board) (rank : Z) :
  on_board_coord rank ->
  rendered b !! Z.to_nat (SIZE - 1 - rank) = Some (rendered_rank b rank).
Proof.
  unfold on_board_coord, SIZE. intros Hr.
  assert (Hcases : rank = 0 ∨ rank = 1 ∨ rank = 2 ∨ rank = 3
                   ∨ rank = 4 ∨ rank = 5 ∨ rank = 6 ∨ rank = 7) by lia.
  destruct Hcases as [->|[->|[->|[->|[->|[->|[->| ->]]]]]]]; reflexivity.
Qed.

Lemma rendered_square_lookup (b : Board) (rank file : Z) :
  on_board_coord file ->
  children (rendered_rank b rank) !! Z.to_nat file
  = Some (rendered_square b rank file).
Proof.
  unfold on_board_coord, SIZE. intros Hf.
  assert (Hcases : file = 0 ∨ file = 1 ∨ file = 2 ∨ file = 3
                   ∨ file = 4 ∨ file = 5 ∨ file = 6 ∨ file = 7) by lia.
  destruct Hcases as [->|[->|[->|[->|[->|[->|[->| ->]]]]]]]; reflexivity.
Qed.

(** C4: for every board (an 8x8 grid) and every selection, [draw] returns
    normally and leaves the container, with its own tag, classes and
    listeners, holding exactly 8 child nodes, all of them row elements;
    the row at index [7 - rank] is the one of [rank], so the rows run from
    rank 7 down to rank 0; each row holds exactly 8 child nodes, all of
    them cell elements, the one at index [file] being the cell of
    [(file, rank)].  That cell carries the dark tag iff
    [(file + rank) % 2 == 0] and the light tag otherwise, carries the
    selected tag iff [selectedSquare] is [(file, rank)], has a child node
    iff the square holds a piece, that node then being one text node with
    the glyph of the piece's type for its colour, and its click listener
    calls the handler with [(file, rank)]. *)
Theorem C4_draw (b : Board) (e : Element) :
  wf_board b ->
  ∃ rows : list Element,
    Board_draw b e
    = (Normal tt,
       mkElement (localName e) (classList e) (clickListeners e) (map Elem rows))
    ∧ length rows = 8%nat
    ∧ ∀ file rank, on_board_coord file -> on_board_coord rank ->
        ∃ (row cell : Element) (cells : list Element) (c : SquareContent),
          rows !! Z.to_nat (7 - rank) = Some row
          ∧ classList row = ["rank"]
          ∧ childNodes row = map Elem cells
          ∧ length cells = 8%nat
          ∧ cells !! Z.to_nat file = Some cell
          ∧ Board_get b (mkPos file rank) = Normal c
          ∧ "square" ∈ classList cell
          ∧ ("square-dark" ∈ classList cell ↔ Z.rem (file + rank) 2 = 0)
          ∧ ("square-light" ∈ classList cell ↔ Z.rem (file + rank) 2 ≠ 0)
          ∧ ("square-selected" ∈ classList cell
             ↔ selectedSquare b = Some (mkPos file rank))
          ∧ (childNodes cell ≠ [] ↔ ∃ p, c = piece p)
          ∧ (∀ p, c = piece p ->
               ∃ t, pieceType p = Some t
                    ∧ childNodes cell = [Text (PieceType_character t (color p))])
          ∧ clickListeners cell = [(file, rank)].
Proof.
  intros Hwf. exists (rendered b).
  split; [by apply Board_draw_wf|]. split; [reflexivity|].
  intros file rank Hf Hr.
  destruct (squares_at_wf b file rank Hwf Hf Hr) as (c & Hc & Ht).
  exists (rendered_rank b rank), (rendered_square b rank file),
    (map (rendered_square b rank) [0; 1; 2; 3; 4; 5; 6; 7]), c.
  split; [exact (rendered_rank_lookup b rank Hr)|].
  split; [reflexivity|]. split; [reflexivity|]. split; [reflexivity|].
  split; [exact (rendered_square_lookup b rank file Hf)|].
  split; [exact Hc|].
  split; [apply list_elem_of_here|].
  split; [apply rendered_square_dark|].
  split; [apply rendered_square_light|].
  split; [apply rendered_square_selected|].
  assert (Hnodes : childNodes (rendered_square b rank file) = glyph_nodes c).
  { unfold rendered_square, content; cbn [childNodes]. by rewrite Hc. }
  rewrite Hnodes.
  split; [|split; [|reflexivity]].
  - destruct c as [| |[[t|] col]]; simpl in Ht; try contradiction.
    + split; [intros Hn; by destruct Hn|intros [p Hp]; discriminate Hp].
    + split; [intros _; eauto|intros _; discriminate].
    + destruct Ht; discriminate.
  - intros p ->. destruct p as [[t|] col].
    + exists t. split; reflexivity.
    + simpl in Ht. destruct Ht; discriminate.
Qed.

(** Drawing the initial board into a body that holds a text and a
    paragraph. *)
Lemma C4_draw_witness :
  ∃ rows : list Element,
    Board_draw Board_new
      (mkElement "body" [] [] [Text [104%N; 105%N]; Elem (createElement "p")])
    = (Normal tt, mkElement "body" [] [] (map Elem rows))
    ∧ length rows = 8%nat
    ∧ ∀ file rank, on_board_coord file -> on_board_coord rank ->
        ∃ (row cell : Element) (cells : list Element) (c : SquareContent),
          rows !! Z.to_nat (7 - rank) = Some row
          ∧ classList row = ["rank"]
          ∧ childNodes row = map Elem cells
          ∧ length cells = 8%nat
          ∧ cells !! Z.to_nat file = Some cell
          ∧ Board_get Board_new (mkPos file rank) = Normal c
          ∧ "square" ∈ classList cell
          ∧ ("square-dark" ∈ classList cell ↔ Z.rem (file + rank) 2 = 0)
          ∧ ("square-light" ∈ classList cell ↔ Z.rem (file + rank) 2 ≠ 0)
          ∧ ("square-selected" ∈ classList cell
             ↔ selectedSquare Board_new = Some (mkPos file rank))
          ∧ (childNodes cell ≠ [] ↔ ∃ p, c = piece p)
          ∧ (∀ p, c = piece p ->
               ∃ t, pieceType p = Some t
                    ∧ childNodes cell = [Text (PieceType_character t (color p))])
          ∧ clickListeners cell = [(file, rank)].
Proof.
  apply (C4_draw Board_new
           (mkElement "body" [] [] [Text [104%N; 105%N]; Elem (createElement "p")])).
  apply (bool_decide_unpack _). vm_compute. exact I.
Defined.

(** ** The two-click gesture *)

(** C2: in the Armed state with source square S, a click on any other
    square D of the board returns normally (no error), leaves in D what S
    held and [null] in S, whatever D held before, clears the selection and
    the armed marker (back to Idle), and changes no other square: the
    overwritten content is kept nowhere. *)
Theorem C2_relocation (w : World) (S D : SquarePosition) :
  wf_board (board w) ->
  sourceSquare w = Some S ->
  in_range S -> in_range D -> D ≠ S ->
  ∃ (v : SquareContent) (w' : World),
    Board_get (board w) S = Normal v
    ∧ onSquareClick (file D) (rank D) w = (Normal tt, w')
    ∧ Board_get (board w') D = Normal v
    ∧ Board_get (board w') S = Normal null
    ∧ selectedSquare (board w') = None
    ∧ sourceSquare w' = None
    ∧ ∀ q, q ≠ D -> q ≠ S -> Board_get (board w') q = Board_get (board w) q.
Proof.
  intros Hwf Hsrc HS HD Hne. destruct D as [df dr].
  destruct (click_armed_move_wf w df dr S Hwf Hsrc HS HD)
    as (v & b' & Hv & Hclick & _ & HgD & HgS & Hframe & _); [congruence|].
  exists v, (redrawn (select None b') None w).
  split; [exact Hv|]. split; [exact Hclick|]. split; [exact HgD|].
  split; [exact HgS|]. split; [reflexivity|]. split; [reflexivity|].
  exact Hframe.
Qed.

(** C5: in the Idle state, clicking an occupied square twice returns
    normally both times and leaves the grid exactly as it was, with the
    selection and the armed marker cleared. *)
Theorem C5_select_deselect (w : World) (S : SquarePosition) (p : Piece) :
  wf_board (board w) ->
  sourceSquare w = None ->
  Board_get (board w) S = Normal (piece p) ->
  ∃ w1 w2 : World,
    onSquareClick (file S) (rank S) w = (Normal tt, w1)
    ∧ onSquareClick (file S) (rank S) w1 = (Normal tt, w2)
    ∧ squares (board w2) = squares (board w)
    ∧ selectedSquare (board w2) = None
    ∧ sourceSquare w2 = None.
Proof.
  intros Hwf Hidle Hget. destruct S as [sf sr]. simpl.
  eexists. eexists. split; [by eapply click_idle_select|].
  split; [|split; [|split]].
  - by eapply click_armed_same.
  - reflexivity.
  - reflexivity.
  - reflexivity.
Qed.

(** C7: in the Idle state, a click on an empty square returns normally and
    leaves the board (every cell, and [selectedSquare]) and the armed
    marker as they were; only the redraw happens, so the state it leaves
    is the one [board.draw(body)] alone leaves. *)
Theorem C7_idle_empty_click (w : World) (pos : SquarePosition) :
  wf_board (board w) ->
  sourceSquare w = None ->
  Board_get (board w) pos = Normal null ->
  ∃ w' : World,
    onSquareClick (file pos) (rank pos) w = (Normal tt, w')
    ∧ board w' = board w
    ∧ sourceSquare w' = None
    ∧ board_draw w = (Normal tt, w').
Proof.
  intros Hwf Hidle Hget. destruct pos as [pf pr]. simpl.
  eexists. split; [by eapply click_idle_empty|].
  split; [reflexivity|]. split; [reflexivity|].
  by rewrite board_draw_wf, Hidle.
Qed.

(** C6: from the initial layout, clicking (file 4, rank 1) and then
    (file 4, rank 3) leaves (4,1) empty, a white pawn on (4,3), the
    selection cleared, and each of the 62 other squares as the constructor
    set it up. *)
Theorem C6_pawn_scenario (page : Element) :
  ∃ w1 w2 : World,
    onSquareClick 4 1 (after_main page) = (Normal tt, w1)
    ∧ onSquareClick 4 3 w1 = (Normal tt, w2)
    ∧ Board_get (board w2) (mkPos 4 1) = Normal null
    ∧ Board_get (board w2) (mkPos 4 3)
      = Normal (piece (mkPiece (Some PAWN) WHITE))
    ∧ selectedSquare (board w2) = None
    ∧ sourceSquare w2 = None
    ∧ length other_squares = 62%nat
    ∧ Forall (fun q => Board_get (board w2) q = Board_get Board_new q)
             other_squares.
Proof.
  pose proof (invariant_main page) as Hinv.
  assert (Hw0 : after_main page
                = redrawn Board_new None (mkWorld Board_new None page)).
  { unfold after_main. by rewrite after_main_eq. }
  set (w1 := redrawn (select (Some (mkPos 4 1)) Board_new) (Some (mkPos 4 1))
               (after_main page)).
  assert (H1 : onSquareClick 4 1 (after_main page) = (Normal tt, w1)).
  { eapply click_idle_select.
    - exact (inv_wf _ Hinv).
    - rewrite Hw0. reflexivity.
    - rewrite Hw0. vm_compute. reflexivity.
    - reflexivity. }
  destruct (click_armed_move_wf w1 4 3 (mkPos 4 1))
    as (v & b' & Hv & H2 & _ & HgD & HgS & Hframe & _).
  - exact Board_new_wf.
  - reflexivity.
  - apply (bool_decide_unpack _). vm_compute. exact I.
  - apply (bool_decide_unpack _). vm_compute. exact I.
  - discriminate.
  - exists w1, (redrawn (select None b') None w1).
    assert (Hpawn : v = piece (mkPiece (Some PAWN) WHITE)).
    { vm_compute in Hv. congruence. }
    subst v.
    split; [exact H1|]. split; [exact H2|]. split; [exact HgS|].
    split; [exact HgD|]. split; [reflexivity|]. split; [reflexivity|].
    split; [vm_compute; reflexivity|].
    apply Forall_forall. intros q Hq.
    apply list_elem_of_filter in Hq as [[Hq1 Hq3] _].
    rewrite board_redrawn, Board_get_select, Hframe by assumption.
    reflexivity.
Qed.

(** ** Invariants of the reachable states *)

(** C8: in every state reachable from the freshly constructed board by
    clicks, hence after every run of the handler, the armed marker
    [sourceSquare] and the board's [selectedSquare] agree: both are null,
    or both designate the same square. *)
Theorem C8_selection_in_sync (w : World) :
  reachable w ->
  (selectedSquare (board w) = None ∧ sourceSquare w = None)
  ∨ (∃ s, selectedSquare (board w) = Some s ∧ sourceSquare w = Some s).
Proof.
  intros Hreach. pose proof (inv_sync _ (reachable_invariant w Hreach)) as Hsync.
  destruct (sourceSquare w) as [s|].
  - right. by exists s.
  - by left.
Qed.

(** C9: in every state reachable from the freshly constructed board by
    clicks, the square that [selectedSquare] references, if any, holds a
    piece. *)
Theorem C9_selected_square_occupied (w : World) (s : SquarePosition) :
  reachable w ->
  selectedSquare (board w) = Some s ->
  ∃ p : Piece, Board_get (board w) s = Normal (piece p).
Proof.
  intros Hreach Hsel. pose proof (reachable_invariant w Hreach) as Hinv.
  rewrite (inv_sync _ Hinv) in Hsel.
  destruct (inv_source _ Hinv s Hsel) as [_ Hocc].
  unfold occupied, holds_piece in Hocc.
  destruct (Board_get (board w) s) as [[| |p]|]; try discriminate Hocc.
  by exists p.
Qed.

(** C10: a reachable state has at most 32 occupied squares, and a click
    on one of its rendered squares returns normally and either leaves the
    number of occupied squares as it was or, exactly when it is a
    relocation onto an occupied square, lowers it by one; the state after
    the click has at most 32 occupied squares again. *)
Theorem C10_occupied_count (w : World) :
  reachable w ->
  (occupied_count (board w) <= 32)%nat
  ∧ ∀ (cell : Element) (file rank : Z),
      cell ∈ square_elements (body w) ->
      (file, rank) ∈ clickListeners cell ->
      ∃ w' : World,
        onSquareClick file rank w = (Normal tt, w')
        ∧ (overwrites w (mkPos file rank) = true ->
           (occupied_count (board w') + 1 = occupied_count (board w))%nat)
        ∧ (overwrites w (mkPos file rank) = false ->
           occupied_count (board w') = occupied_count (board w))
        ∧ (occupied_count (board w') <= 32)%nat.
Proof.
  intros Hreach. pose proof (reachable_invariant w Hreach) as Hinv.
  split; [exact (inv_count _ Hinv)|].
  intros cell file rank Hcell Hlistener.
  assert (Hin : in_range (mkPos file rank)).
  { eapply rendered_listener; [|exact Hlistener].
    unfold square_elements in Hcell. by rewrite (inv_children _ Hinv) in Hcell. }
  destruct (click_invariant w file rank Hinv Hin) as (w' & Hclick & Hinv' & Hcnt).
  exists w'. split; [exact Hclick|].
  split; [|split; [|exact (inv_count _ Hinv')]];
    intros Ho; rewrite Ho in Hcnt; simpl in Hcnt; lia.
Qed.

(** ** Concrete runs *)

Lemma armed_example_reachable : reachable armed_example.
Proof.
  unfold armed_example, idle_example.
  apply (reachable_click _ (rendered_square Board_new 1 4)).
  - apply reachable_main.
  - apply (list_elem_of_lookup_2 _ 52). vm_compute. reflexivity.
  - apply list_elem_of_here.
Qed.

(** The white pawn of file 4, armed, is sent to (4,3). *)
Lemma C2_relocation_witness :
  ∃ (v : SquareContent) (w' : World),
    Board_get (board armed_example) (mkPos 4 1) = Normal v
    ∧ onSquareClick 4 3 armed_example = (Normal tt, w')
    ∧ Board_get (board w') (mkPos 4 3) = Normal v
    ∧ Board_get (board w') (mkPos 4 1) = Normal null
    ∧ selectedSquare (board w') = None
    ∧ sourceSquare w' = None
    ∧ ∀ q, q ≠ mkPos 4 3 -> q ≠ mkPos 4 1 ->
        Board_get (board w') q = Board_get (board armed_example) q.
Proof.
  apply (C2_relocation armed_example (mkPos 4 1) (mkPos 4 3)).
  - apply (bool_decide_unpack _). vm_compute. exact I.
  - vm_compute. reflexivity.
  - apply (bool_decide_unpack _). vm_compute. exact I.
  - apply (bool_decide_unpack _). vm_compute. exact I.
  - discriminate.
Defined.

(** The white pawn of file 4 is selected and released. *)
Lemma C5_select_deselect_witness :
  ∃ w1 w2 : World,
    onSquareClick 4 1 idle_example = (Normal tt, w1)
    ∧ onSquareClick 4 1 w1 = (Normal tt, w2)
    ∧ squares (board w2) = squares (board idle_example)
    ∧ selectedSquare (board w2) = None
    ∧ sourceSquare w2 = None.
Proof.
  apply (C5_select_deselect idle_example (mkPos 4 1) (mkPiece (Some PAWN) WHITE)).
  - apply (bool_decide_unpack _). vm_compute. exact I.
  - vm_compute. reflexivity.
  - vm_compute. reflexivity.
Defined.

(** A click on the empty square (4,3) of the initial page. *)
Lemma C7_idle_empty_click_witness :
  ∃ w' : World,
    onSquareClick 4 3 idle_example = (Normal tt, w')
    ∧ board w' = board idle_example
    ∧ sourceSquare w' = None
    ∧ board_draw idle_example = (Normal tt, w').
Proof.
  apply (C7_idle_empty_click idle_example (mkPos 4 3)).
  - apply (bool_decide_unpack _). vm_compute. exact I.
  - vm_compute. reflexivity.
  - vm_compute. reflexivity.
Defined.

(** The two markers after the first click on the white pawn of file 4. *)
Lemma C8_selection_in_sync_witness :
  (selectedSquare (board armed_example) = None ∧ sourceSquare armed_example = None)
  ∨ (∃ s, selectedSquare (board armed_example) = Some s
          ∧ sourceSquare armed_example = Some s).
Proof. apply (C8_selection_in_sync armed_example). exact armed_example_reachable. Defined.

(** The selected square after that click still holds the pawn. *)
Lemma C9_selected_square_occupied_witness :
  ∃ p : Piece, Board_get (board armed_example) (mkPos 4 1) = Normal (piece p).
Proof.
  apply (C9_selected_square_occupied armed_example (mkPos 4 1)).
  - exact armed_example_reachable.
  - vm_compute. reflexivity.
Defined.

(** The count around any click that follows. *)
Lemma C10_occupied_count_witness :
  (occupied_count (board armed_example) <= 32)%nat
  ∧ ∀ (cell : Element) (file rank : Z),
      cell ∈ square_elements (body armed_example) ->
      (file, rank) ∈ clickListeners cell ->
      ∃ w' : World,
        onSquareClick file rank armed_example = (Normal tt, w')
        ∧ (overwrites armed_example (mkPos file rank) = true ->
           (occupied_count (board w') + 1 = occupied_count (board armed_example))%nat)
        ∧ (overwrites armed_example (mkPos file rank) = false ->
           occupied_count (board w') = occupied_count (board armed_example))
        ∧ (occupied_count (board w') <= 32)%nat.
Proof. apply (C10_occupied_count armed_example). exact armed_example_reachable. Defined.

(** * Further properties of the code *)

(** ** [clearElement] and the redraw *)

(** [clearElement] returns normally on every element and leaves it without
    any child node, text or element, with its tag, classes and listeners
    as they were. *)
Theorem clearElement_empties (e : Element) :
  clearElement e
  = (Normal tt, mkElement (localName e) (classList e) (clickListeners e) []).
Proof.
  unfold clearElement, modify, set_childNodes.
  by rewrite remove_children_nil.
Qed.

(** On an 8x8 grid, [draw] returns normally and leaves the container with
    its own tag, classes and listeners and with child nodes that do not
    depend on what the container held before, text or elements: they are
    the ones [draw] leaves in any other container.  Drawing a second time
    changes nothing. *)
Theorem Board_draw_replaces (b : Board) (e e' : Element) :
  wf_board b ->
  Board_draw b e
  = (Normal tt,
     mkElement (localName e) (classList e) (clickListeners e)
       (childNodes (snd (Board_draw b e'))))
  ∧ Board_draw b (snd (Board_draw b e)) = Board_draw b e.
Proof.
  intros Hwf. rewrite !Board_draw_wf by exact Hwf. by split.
Qed.

(** Drawing the initial board over a body that holds a text and a
    paragraph, and into an empty element. *)
Lemma Board_draw_replaces_witness :
  Board_draw Board_new
    (mkElement "body" ["page"] [] [Text [104%N; 105%N]; Elem (createElement "p")])
  = (Normal tt,
     mkElement "body" ["page"] []
       (childNodes (snd (Board_draw Board_new (createElement "main")))))
  ∧ Board_draw Board_new
      (snd (Board_draw Board_new
              (mkElement "body" ["page"] []
                 [Text [104%N; 105%N]; Elem (createElement "p")])))
    = Board_draw Board_new
        (mkElement "body" ["page"] [] [Text [104%N; 105%N]; Elem (createElement "p")]).
Proof.
  apply (Board_draw_replaces Board_new
           (mkElement "body" ["page"] [] [Text [104%N; 105%N]; Elem (createElement "p")])
           (createElement "main")).
  apply (bool_decide_unpack _). vm_compute. exact I.
Defined.

(** ** When [draw] throws *)

Lemma square_element_normal (b : Board) (file rank : Z) :
  (∃ el, square_element b file rank = Normal el) ↔ drawable_at b file rank.
Proof.
  unfold drawable_at, square_element.
  destruct (squares_at b file rank) as [c|x].
  - destruct c as [| |[[t|] col]]; simpl.
    + split; [intros [el Hel]; discriminate Hel|].
      intros (c & Hc & Ht). injection Hc as <-. destruct Ht.
    + split; [intros _; exists null; by split|intros _; eauto].
    + split; [intros _; eexists; split; [reflexivity|]; simpl; eauto
             |intros _; eauto].
    + split; [intros [el Hel]; discriminate Hel|].
      intros (c & Hc & Ht). injection Hc as <-. simpl in Ht.
      destruct Ht; discriminate.
  - split; [intros [el Hel]; discriminate Hel|].
    intros (c & Hc & _). discriminate Hc.
Qed.

Section LoopOutcome.

Context {St : Type}.
Variable body_ : Z -> M St unit.
Variable ok : Z -> Prop.

(** Whether a turn of the loop returns normally is decided by the index,
    not by the state. *)
Hypothesis Hbody : ∀ k s, fst (body_ k s) = Normal tt ↔ ok k.

Lemma for_up_normal (n : nat) :
  ∀ (i : Z) (s : St),
    fst (for_up n i body_ s) = Normal tt
    ↔ ∀ k, i <= k < i + Z.of_nat n -> ok k.
Proof.
  induction n as [|n IH]; intros i s.
  - simpl. split; [intros _ k Hk; lia|reflexivity].
  - cbn [for_up]. unfold bind.
    pose proof (Hbody i s) as Hi.
    destruct (body_ i s) as [[[]|x] s']; simpl in Hi.
    + rewrite IH. split.
      * intros H k Hk. destruct (decide (k = i)) as [->|Hne].
        -- by apply Hi.
        -- apply H. lia.
      * intros H k Hk. apply H. lia.
    + simpl. split; [intros H; discriminate H|].
      intros H. apply Hi. apply H. lia.
Qed.

Lemma for_down_normal (n : nat) :
  ∀ (i : Z) (s : St),
    fst (for_down n i body_ s) = Normal tt
    ↔ ∀ k, i - Z.of_nat n < k <= i -> ok k.
Proof.
  induction n as [|n IH]; intros i s.
  - simpl. split; [intros _ k Hk; lia|reflexivity].
  - cbn [for_down]. unfold bind.
    pose proof (Hbody i s) as Hi.
    destruct (body_ i s) as [[[]|x] s']; simpl in Hi.
    + rewrite IH. split.
      * intros H k Hk. destruct (decide (k = i)) as [->|Hne].
        -- by apply Hi.
        -- apply H. lia.
      * intros H k Hk. apply H. lia.
    + simpl. split; [intros H; discriminate H|].
      intros H. apply Hi. apply H. lia.
Qed.

End LoopOutcome.

Lemma Board_draw_normal_iff (b : Board) (e : Element) :
  fst (Board_draw b e) = Normal tt
  ↔ ∀ file rank, on_board_coord file -> on_board_coord rank ->
      drawable_at b file rank.
Proof.
  unfold Board_draw, bind, clearElement, modify.
  rewrite (for_down_normal _
             (fun rank => ∀ file, on_board_coord file -> drawable_at b file rank)).
  - unfold on_board_coord, SIZE. simpl. split.
    + intros H file rank Hf Hr. apply H; [lia|exact Hf].
    + intros H rank Hr file Hf. apply H; [exact Hf|lia].
  - intros rank s. unfold bind, modify.
    rewrite (for_up_normal _ (fun file => drawable_at b file rank)).
    + unfold on_board_coord, SIZE. simpl. split; intros H file Hf; apply H; lia.
    + intros file s'. unfold bind, lift, modify.
      rewrite <- square_element_normal.
      destruct (square_element b file rank) as [el|x]; simpl.
      * split; [intros _; eauto|reflexivity].
      * split; [intros H; discriminate H|intros [el Hel]; discriminate Hel].
Qed.

(** On every board, [draw] either returns normally, and then each of the
    64 squares reads as [null] or as a piece with a piece type, or throws
    a [TypeError], and then some square of the board does not (its row or
    its cell is missing, or its piece has no type). *)
Theorem Board_draw_outcome (b : Board) (e : Element) :
  (fst (Board_draw b e) = Normal tt
   ∧ ∀ pos, in_range pos -> drawable_at b (file pos) (rank pos))
  ∨ (fst (Board_draw b e) = Throw TypeError
     ∧ ∃ pos, in_range pos ∧ ¬ drawable_at b (file pos) (rank pos)).
Proof.
  destruct (decide (Forall (fun pos => drawable_at b (file pos) (rank pos))
                      all_positions)) as [Hall|Hsome].
  - left. rewrite Forall_forall in Hall.
    assert (Hpos : ∀ pos, in_range pos -> drawable_at b (file pos) (rank pos)).
    { intros pos Hin. apply Hall. by apply elem_of_all_positions. }
    split; [|exact Hpos].
    apply Board_draw_normal_iff. intros f r Hf Hr.
    apply (Hpos (mkPos f r)). by split.
  - right. apply not_Forall_Exists in Hsome; [|intros pos; apply _].
    apply Exists_exists in Hsome as (pos & Hin & Hbad).
    apply elem_of_all_positions in Hin.
    split; [|by exists pos].
    destruct (fst (Board_draw b e)) as [[]|[]] eqn:Hfst; [|reflexivity].
    exfalso. apply Hbad.
    destruct Hin as [Hf Hr].
    exact (proj1 (Board_draw_normal_iff b e) Hfst _ _ Hf Hr).
Qed.

(** ** Every square is clickable, once *)

Lemma rendered_listener_coordinates (b : Board) (e : Element) :
  listener_coordinates (set_children (rendered b) e)
  = map (fun pos => (file pos, rank pos))
      (rank ← [7; 6; 5; 4; 3; 2; 1; 0]; file ← seqZ 0 SIZE; [mkPos file rank]).
Proof. reflexivity. Qed.

(** After [draw] on an 8x8 grid the container carries exactly 64 click
    listeners, no two with the same coordinates, and a pair of coordinates
    is among them exactly when it is a square of the board. *)
Theorem Board_draw_listeners (b : Board) (e : Element) :
  wf_board b ->
  length (listener_coordinates (snd (Board_draw b e))) = 64%nat
  ∧ NoDup (listener_coordinates (snd (Board_draw b e)))
  ∧ ∀ f r,
      (f, r) ∈ listener_coordinates (snd (Board_draw b e))
      ↔ in_range (mkPos f r).
Proof.
  intros Hwf. rewrite Board_draw_wf by exact Hwf. cbn [snd].
  rewrite rendered_listener_coordinates.
  split; [reflexivity|]. split.
  - apply (bool_decide_unpack _). vm_compute. exact I.
  - intros f r. rewrite <- elem_of_all_positions. split.
    + intros H. apply list_elem_of_In, in_map_iff in H as (pos & Heq & Hpos).
      destruct pos as [pf pr]. injection Heq as -> ->.
      apply list_elem_of_In in Hpos. revert Hpos. generalize (mkPos f r).
      apply (proj1 (Forall_forall _ _)).
      apply (bool_decide_unpack _). vm_compute. exact I.
    + intros H. apply list_elem_of_In, in_map_iff. exists (mkPos f r).
      split; [reflexivity|]. apply list_elem_of_In.
      revert H. generalize (mkPos f r).
      apply (proj1 (Forall_forall _ _)).
      apply (bool_decide_unpack _). vm_compute. exact I.
Qed.

(** The listeners of the initial board drawn into an empty body. *)
Lemma Board_draw_listeners_witness :
  length (listener_coordinates (snd (Board_draw Board_new (createElement "body"))))
  = 64%nat
  ∧ NoDup (listener_coordinates (snd (Board_draw Board_new (createElement "body"))))
  ∧ ∀ f r,
      (f, r) ∈ listener_coordinates (snd (Board_draw Board_new (createElement "body")))
      ↔ in_range (mkPos f r).
Proof.
  apply (Board_draw_listeners Board_new (createElement "body")).
  apply (bool_decide_unpack _). vm_compute. exact I.
Defined.

(** ** Writes compose *)

Lemma JsArray_set_set {A} (a : JsArray.t A) (i : Z) (v v' : A) :
  JsArray.set (JsArray.set a i v) i v' = JsArray.set a i v'.
Proof.
  unfold JsArray.set; simpl. rewrite insert_insert_eq. f_equal.
  repeat case_bool_decide; lia.
Qed.

Lemma JsArray_set_comm {A} (a : JsArray.t A) (i j : Z) (v w : A) :
  i ≠ j ->
  JsArray.set (JsArray.set a i v) j w = JsArray.set (JsArray.set a j w) i v.
Proof.
  intros Hne. unfold JsArray.set; simpl.
  rewrite (insert_insert_ne _ i j) by exact Hne. f_equal.
  repeat case_bool_decide; lia.
Qed.

(** On any board, [get] and [set] at a position fail together, when the
    file has no row, and [set] then changes nothing; otherwise [set]
    returns normally, a [get] at the position returns what was written,
    every other position reads as before and the selection is kept. *)
Theorem Board_set_then_get (b : Board) (pos : SquarePosition) (v : SquareContent) :
  match Board_get b pos with
  | Throw x => Board_set pos v b = (Throw x, b)
  | Normal _ =>
      ∃ b', Board_set pos v b = (Normal tt, b')
            ∧ Board_get b' pos = Normal v
            ∧ (∀ q, q ≠ pos -> Board_get b' q = Board_get b q)
            ∧ selectedSquare b' = selectedSquare b
  end.
Proof.
  unfold Board_get, squares_at, Board_set.
  destruct (JsArray.get (squares b) (file pos)) as [row|] eqn:Hrow;
    [|reflexivity].
  eexists. split; [reflexivity|]. split; [|split; [|reflexivity]].
  - unfold JsArray.get, JsArray.set; simpl.
    rewrite lookup_insert_eq; simpl. by rewrite lookup_insert_eq.
  - intros q Hq. unfold JsArray.get; simpl.
    destruct (decide (file pos = file q)) as [Hfe|Hfe].
    + rewrite <- Hfe, lookup_insert_eq.
      unfold JsArray.get in Hrow. rewrite Hrow.
      unfold JsArray.set; simpl. rewrite lookup_insert_ne; [reflexivity|].
      intros Hre. apply Hq. destruct q, pos; simpl in *; congruence.
    + by rewrite lookup_insert_ne.
Qed.

(** Two writes to the same position leave the board the second write
    alone would leave: the last write wins. *)
Theorem Board_set_twice (b : Board) (pos : SquarePosition) (v v' : SquareContent) :
  Board_set pos v' (snd (Board_set pos v b)) = Board_set pos v' b.
Proof.
  unfold Board_set.
  destruct (JsArray.get (squares b) (file pos)) as [row|] eqn:Hrow; simpl.
  - unfold JsArray.get; simpl. rewrite lookup_insert_eq.
    by rewrite insert_insert_eq, JsArray_set_set.
  - by rewrite Hrow.
Qed.

(** Writes to two different positions can be made in either order; this
    holds on every board, also when one of the writes throws. *)
Theorem Board_set_commute (b : Board) (p q : SquarePosition)
    (v w : SquareContent) :
  p ≠ q ->
  snd (Board_set q w (snd (Board_set p v b)))
  = snd (Board_set p v (snd (Board_set q w b))).
Proof.
  intros Hne. unfold Board_set.
  destruct (decide (file p = file q)) as [Hf|Hf].
  - assert (Hr : rank p ≠ rank q).
    { intros Hr. apply Hne. destruct p, q; simpl in *; congruence. }
    rewrite <- Hf.
    destruct (JsArray.get (squares b) (file p)) as [row|] eqn:Hrow; simpl.
    + unfold JsArray.get; simpl. rewrite !lookup_insert_eq. simpl.
      by rewrite !insert_insert_eq, (JsArray_set_comm row _ _ v w Hr).
    + by rewrite Hrow.
  - destruct (JsArray.get (squares b) (file p)) as [rp|] eqn:Hp;
      destruct (JsArray.get (squares b) (file q)) as [rq|] eqn:Hq; simpl;
      unfold JsArray.get in *; simpl;
      rewrite ?lookup_insert_ne by congruence;
      rewrite ?Hp, ?Hq; simpl; try reflexivity.
    by rewrite (insert_insert_ne _ (file p) (file q)) by exact Hf.
Qed.

(** Two writes on the initial board, in both orders. *)
Lemma Board_set_commute_witness :
  snd (Board_set (mkPos 4 3) null
         (snd (Board_set (mkPos 4 1) (piece (mkPiece (Some QUEEN) BLACK)) Board_new)))
  = snd (Board_set (mkPos 4 1) (piece (mkPiece (Some QUEEN) BLACK))
           (snd (Board_set (mkPos 4 3) null Board_new))).
Proof.
  apply (Board_set_commute Board_new (mkPos 4 1) (mkPos 4 3)).
  discriminate.
Defined.

(** ** The drawing shows the board *)

Lemma glyph_nodes_inj (c c' : SquareContent) :
  well_typed c -> well_typed c' -> glyph_nodes c = glyph_nodes c' -> c = c'.
Proof.
  intros Ht Ht' Hg.
  destruct c as [| |[[t|] col]], c' as [| |[[t'|] col']]; simpl in *;
    try contradiction;
    try (destruct Ht; discriminate); try (destruct Ht'; discriminate);
    try reflexivity; try discriminate Hg.
  destruct t, col, t', col'; try discriminate Hg; reflexivity.
Qed.

Lemma wf_row_ext (r1 r2 : JsArray.t SquareContent) :
  wf_row r1 -> wf_row r2 ->
  (∀ k, on_board_coord k -> JsArray.get r1 k = JsArray.get r2 k) ->
  r1 = r2.
Proof.
  intros Hw1 Hw2 Heq.
  assert (Hp : JsArray.props r1 = JsArray.props r2).
  { apply map_eq. intros k. destruct (decide (on_board_coord k)) as [Hk|Hk].
    - exact (Heq k Hk).
    - transitivity (@None SquareContent).
      + exact (wf_row_no_cell r1 k Hw1 Hk).
      + symmetry. exact (wf_row_no_cell r2 k Hw2 Hk). }
  destruct Hw1 as (Hl1 & _), Hw2 as (Hl2 & _).
  destruct r1, r2; simpl in *; congruence.
Qed.

(** Two 8x8 grids that read alike at every square are the same array of
    arrays. *)
Lemma wf_board_ext (b1 b2 : Board) :
  wf_board b1 -> wf_board b2 ->
  (∀ pos, in_range pos -> Board_get b1 pos = Board_get b2 pos) ->
  squares b1 = squares b2.
Proof.
  intros Hw1 Hw2 Heq.
  assert (Hp : JsArray.props (squares b1) = JsArray.props (squares b2)).
  { apply map_eq. intros f. destruct (decide (on_board_coord f)) as [Hf|Hf].
    - destruct (wf_board_row b1 f Hw1 Hf) as (r1 & Hr1 & Hwr1).
      destruct (wf_board_row b2 f Hw2 Hf) as (r2 & Hr2 & Hwr2).
      unfold JsArray.get in Hr1, Hr2. rewrite Hr1, Hr2. f_equal.
      apply wf_row_ext; [exact Hwr1|exact Hwr2|]. intros k Hk.
      specialize (Heq (mkPos f k) (conj Hf Hk)).
      unfold Board_get, squares_at, JsArray.get in Heq. simpl in Heq.
      rewrite Hr1, Hr2 in Heq.
      destruct (wf_row_cell r1 k Hwr1 Hk) as (c1 & Hc1 & _).
      destruct (wf_row_cell r2 k Hwr2 Hk) as (c2 & Hc2 & _).
      rewrite Hc1, Hc2. unfold JsArray.get in Hc1, Hc2.
      rewrite Hc1, Hc2 in Heq. simpl in Heq. congruence.
    - transitivity (@None (JsArray.t SquareContent)).
      + exact (wf_board_no_row b1 f Hw1 Hf).
      + symmetry. exact (wf_board_no_row b2 f Hw2 Hf). }
  destruct Hw1 as (Hl1 & _), Hw2 as (Hl2 & _).
  destruct (squares b1), (squares b2); simpl in *; congruence.
Qed.

(** [draw] loses nothing: two 8x8 grids whose drawings have the same
    children hold the same contents, and the same squares of the board are
    selected in both. *)
Theorem Board_draw_injective (b1 b2 : Board) (e1 e2 : Element) :
  wf_board b1 -> wf_board b2 ->
  children (snd (Board_draw b1 e1)) = children (snd (Board_draw b2 e2)) ->
  squares b1 = squares b2
  ∧ ∀ s, in_range s -> (selectedSquare b1 = Some s ↔ selectedSquare b2 = Some s).
Proof.
  intros Hw1 Hw2 Hdraw.
  rewrite !Board_draw_wf in Hdraw by assumption. cbn [snd] in Hdraw.
  rewrite !children_set_children in Hdraw.
  assert (Hsq : ∀ f r, on_board_coord f -> on_board_coord r ->
                  rendered_square b1 r f = rendered_square b2 r f).
  { intros f r Hf Hr.
    pose proof (rendered_rank_lookup b1 r Hr) as H1.
    pose proof (rendered_rank_lookup b2 r Hr) as H2.
    rewrite Hdraw, H2 in H1.
    assert (Hrank : rendered_rank b1 r = rendered_rank b2 r) by congruence.
    pose proof (rendered_square_lookup b1 r f Hf) as Hsq1.
    pose proof (rendered_square_lookup b2 r f Hf) as Hsq2.
    rewrite Hrank, Hsq2 in Hsq1. congruence. }
  split.
  - apply wf_board_ext; [exact Hw1|exact Hw2|]. intros [f r] [Hf Hr].
    simpl in Hf, Hr. specialize (Hsq f r Hf Hr).
    destruct (squares_at_wf b1 f r Hw1 Hf Hr) as (c1 & Hc1 & Ht1).
    destruct (squares_at_wf b2 f r Hw2 Hf Hr) as (c2 & Hc2 & Ht2).
    unfold Board_get; simpl. rewrite Hc1, Hc2. f_equal.
    apply glyph_nodes_inj; [exact Ht1|exact Ht2|].
    assert (Htext : childNodes (rendered_square b1 r f)
                    = childNodes (rendered_square b2 r f)) by by rewrite Hsq.
    unfold rendered_square, content in Htext; cbn [childNodes] in Htext.
    by rewrite Hc1, Hc2 in Htext.
  - intros [f r] [Hf Hr]. simpl in Hf, Hr.
    rewrite <- (rendered_square_selected b1 r f).
    rewrite <- (rendered_square_selected b2 r f).
    by rewrite (Hsq f r Hf Hr).
Qed.

(** The initial board drawn into two different containers. *)
Lemma Board_draw_injective_witness :
  squares Board_new = squares (select (Some (mkPos 9 9)) Board_new)
  ∧ ∀ s, in_range s ->
      (selectedSquare Board_new = Some s
       ↔ selectedSquare (select (Some (mkPos 9 9)) Board_new) = Some s).
Proof.
  apply (Board_draw_injective Board_new (select (Some (mkPos 9 9)) Board_new)
           (createElement "body") (createElement "main")).
  - apply (bool_decide_unpack _). vm_compute. exact I.
  - apply (bool_decide_unpack _). vm_compute. exact I.
  - vm_compute. reflexivity.
Defined.

(** ** The handler called with coordinates off the board *)

(** Called with a file outside 0..7, on an 8x8 grid, the handler throws a
    [TypeError] at its first statement and changes nothing: no marker, no
    square, no redraw. *)
Theorem click_off_board_file (w : World) (f r : Z) :
  wf_board (board w) ->
  ¬ on_board_coord f ->
  onSquareClick f r w = (Throw TypeError, w).
Proof.
  intros Hwf Hf. unfold onSquareClick, bind, board_get, Board_get, squares_at.
  simpl. by rewrite (wf_board_no_row _ f Hwf Hf).
Qed.

(** File 8 on the initial page. *)
Lemma click_off_board_file_witness :
  onSquareClick 8 0 idle_example = (Throw TypeError, idle_example).
Proof.
  apply (click_off_board_file idle_example 8 0).
  - apply (bool_decide_unpack _). vm_compute. exact I.
  - unfold on_board_coord, SIZE. lia.
Defined.

Lemma rendered_not_selected (b : Board) (s : SquarePosition) (cell : Element) :
  selectedSquare b = Some s -> ¬ in_range s ->
  cell ∈ concat (map children (rendered b)) ->
  "square-selected" ∉ classList cell.
Proof.
  intros Hsel Hout Hc Hin.
  apply list_elem_of_In, in_concat in Hc as (cs & Hcs & Hc).
  apply in_map_iff in Hcs as (row & <- & Hrow).
  unfold rendered in Hrow. apply in_map_iff in Hrow as (r & <- & Hr).
  change (children (rendered_rank b r))
    with (map (rendered_square b r) [0; 1; 2; 3; 4; 5; 6; 7]) in Hc.
  apply in_map_iff in Hc as (f & <- & Hf).
  apply rendered_square_selected in Hin. rewrite Hsel in Hin.
  injection Hin as ->. apply Hout.
  unfold in_range, on_board_coord, SIZE. simpl in *. intuition lia.
Qed.

(** Called in the Idle state with a file inside 0..7 and a rank outside,
    the handler reads [undefined], which is not [null], and arms: both
    markers point at a square that is not on the board and holds no piece.
    The grid is untouched and the redraw marks no cell as selected. *)
Theorem click_off_board_rank_idle (w : World) (f r : Z) :
  wf_board (board w) ->
  sourceSquare w = None ->
  on_board_coord f -> ¬ on_board_coord r ->
  ∃ w' : World,
    onSquareClick f r w = (Normal tt, w')
    ∧ sourceSquare w' = Some (mkPos f r)
    ∧ selectedSquare (board w') = Some (mkPos f r)
    ∧ squares (board w') = squares (board w)
    ∧ Board_get (board w') (mkPos f r) = Normal undefined
    ∧ ∀ cell, cell ∈ square_elements (body w') ->
        "square-selected" ∉ classList cell.
Proof.
  intros Hwf Hidle Hf Hr.
  destruct (wf_board_row _ f Hwf Hf) as (row & Hrow & Hwr).
  assert (Hget : Board_get (board w) (mkPos f r) = Normal undefined).
  { unfold Board_get, squares_at. simpl.
    by rewrite Hrow, (wf_row_no_cell row r Hwr Hr). }
  eexists. split; [by eapply click_idle_select|].
  split; [reflexivity|]. split; [reflexivity|]. split; [reflexivity|].
  split; [exact Hget|].
  intros cell Hcell.
  apply (rendered_not_selected (select (Some (mkPos f r)) (board w)) (mkPos f r));
    [reflexivity| |exact Hcell].
  intros [_ Hr']. exact (Hr Hr').
Qed.

(** Rank 8 of file 4 on the initial page. *)
Lemma click_off_board_rank_idle_witness :
  ∃ w' : World,
    onSquareClick 4 8 idle_example = (Normal tt, w')
    ∧ sourceSquare w' = Some (mkPos 4 8)
    ∧ selectedSquare (board w') = Some (mkPos 4 8)
    ∧ squares (board w') = squares (board idle_example)
    ∧ Board_get (board w') (mkPos 4 8) = Normal undefined
    ∧ ∀ cell, cell ∈ square_elements (body w') ->
        "square-selected" ∉ classList cell.
Proof.
  apply (click_off_board_rank_idle idle_example 4 8).
  - apply (bool_decide_unpack _). vm_compute. exact I.
  - vm_compute. reflexivity.
  - unfold on_board_coord, SIZE. lia.
  - unfold on_board_coord, SIZE. lia.
Defined.

(** ** The reachable states *)

(** In every state reachable by clicks the board is an 8x8 grid, the armed
    square, if any, is on the board, and the page shows the board: a
    redraw returns normally and changes nothing. *)
Theorem reachable_page_in_sync (w : World) :
  reachable w ->
  wf_board (board w)
  ∧ (∀ s, sourceSquare w = Some s -> in_range s)
  ∧ board_draw w = (Normal tt, w).
Proof.
  intros Hreach. destruct (reachable_invariant w Hreach) as [Hwf Hbody _ Hsrc _].
  split; [exact Hwf|]. split; [intros s Hs; by apply Hsrc|].
  rewrite board_draw_wf by exact Hwf. unfold redrawn.
  unfold set_children. rewrite <- Hbody, set_childNodes_id. by destruct w.
Qed.

(** The page after the first click on the white pawn of file 4. *)
Lemma reachable_page_in_sync_witness :
  wf_board (board armed_example)
  ∧ (∀ s, sourceSquare armed_example = Some s -> in_range s)
  ∧ board_draw armed_example = (Normal tt, armed_example).
Proof. apply (reachable_page_in_sync armed_example). exact armed_example_reachable. Defined.

(** The module's top level returns normally whatever the page body held:
    it leaves the starting position, no armed square, no selected square,
    and a body that keeps its own tag, classes and listeners while its
    former child nodes, text or elements, are replaced by the drawing,
    which has 64 squares and does not depend on the former content. *)
Theorem main_initial_state (page page' : Element) :
  ∃ w : World,
    main page = (Normal tt, w)
    ∧ board w = Board_new
    ∧ selectedSquare (board w) = None
    ∧ sourceSquare w = None
    ∧ body w
      = mkElement (localName page) (classList page) (clickListeners page)
          (childNodes (body (after_main page')))
    ∧ length (square_elements (body w)) = 64%nat.
Proof.
  eexists. split; [apply after_main_eq|].
  unfold after_main. rewrite after_main_eq. repeat split; reflexivity.
Qed.

(** A write to a position whose file has a row, on any board. *)
Lemma Board_set_row (b : Board) (pos : SquarePosition) (v : SquareContent) :
  is_Some (JsArray.get (squares b) (file pos)) ->
  ∃ b', Board_set pos v b = (Normal tt, b')
        ∧ Board_get b' pos = Normal v
        ∧ (∀ q, q ≠ pos -> Board_get b' q = Board_get b q)
        ∧ (∀ f, is_Some (JsArray.get (squares b) f) ->
                is_Some (JsArray.get (squares b') f)).
Proof.
  intros [row Hrow]. unfold Board_set. rewrite Hrow.
  eexists. split; [reflexivity|]. split; [|split].
  - unfold Board_get, squares_at, JsArray.get, JsArray.set; simpl.
    rewrite lookup_insert_eq; simpl. by rewrite lookup_insert_eq.
  - intros q Hq. unfold Board_get, squares_at, JsArray.get; simpl.
    destruct (decide (file pos = file q)) as [Hfe|Hfe].
    + rewrite <- Hfe, lookup_insert_eq.
      unfold JsArray.get in Hrow. rewrite Hrow.
      unfold JsArray.set; simpl. rewrite lookup_insert_ne; [reflexivity|].
      intros Hre. apply Hq. destruct q, pos; simpl in *; congruence.
    + by rewrite lookup_insert_ne.
  - intros f Hf. unfold JsArray.get; simpl.
    destruct (decide (file pos = f)) as [<-|Hne].
    + rewrite lookup_insert_eq. eauto.
    + by rewrite lookup_insert_ne.
Qed.

(** Armed on a square off the board (file inside 0..7, rank outside), a
    call of the handler for a square D of the board writes [undefined]
    over D, clears both markers, and then throws a [TypeError] from the
    redraw: whatever D held is gone. *)
Theorem click_after_off_board_arm (w : World) (src D : SquarePosition) :
  wf_board (board w) ->
  sourceSquare w = Some src ->
  on_board_coord (file src) -> ¬ on_board_coord (rank src) ->
  in_range D ->
  ∃ w' : World,
    onSquareClick (file D) (rank D) w = (Throw TypeError, w')
    ∧ Board_get (board w') D = Normal undefined
    ∧ sourceSquare w' = None
    ∧ selectedSquare (board w') = None.
Proof.
  intros Hwf Hsrc Hsf Hsr [HDf HDr].
  destruct D as [df dr], src as [sf sr]. simpl in *.
  destruct (Board_get_wf _ (mkPos df dr) Hwf (conj HDf HDr)) as (c & Hc & _).
  destruct (wf_board_row _ sf Hwf Hsf) as (srow & Hsrow & Hwsr).
  destruct (wf_board_row _ df Hwf HDf) as (drow & Hdrow & _).
  assert (Hgs : Board_get (board w) (mkPos sf sr) = Normal undefined).
  { unfold Board_get, squares_at. simpl.
    by rewrite Hsrow, (wf_row_no_cell srow sr Hwsr Hsr). }
  assert (Hne : mkPos df dr ≠ mkPos sf sr) by (intros [= -> ->]; contradiction).
  destruct (Board_set_row (board w) (mkPos df dr) undefined)
    as (b1 & Hset1 & Hg1 & Hframe1 & Hrows1); [simpl; eauto|].
  destruct (Board_set_row b1 (mkPos sf sr) null)
    as (b2 & Hset2 & _ & Hframe2 & _); [simpl; apply Hrows1; eauto|].
  assert (HgD : Board_get b2 (mkPos df dr) = Normal undefined).
  { by rewrite Hframe2. }
  assert (Hor : negb (bool_decide (df = sf)) || negb (bool_decide (dr = sr)) = true).
  { rewrite (bool_decide_eq_false_2 (dr = sr)) by (intros ->; contradiction).
    apply orb_true_r. }
  set (w_mid := mkWorld (select None b2) None (body w)).
  assert (Hmid :
    (v0 <- board_get (mkPos sf sr) ;;
     board_set (mkPos df dr) v0 ;;
     board_set (mkPos sf sr) null)%js w
    = (Normal tt, mkWorld b2 (sourceSquare w) (body w))).
  { erewrite bind_normal; [|unfold board_get; by rewrite Hgs].
    erewrite bind_normal; [|unfold board_set, on_board; by rewrite Hset1].
    unfold board_set, on_board. simpl. by rewrite Hset2. }
  assert (Hdraw : fst (board_draw w_mid) = Throw TypeError).
  { unfold board_draw, on_body.
    destruct (Board_draw (board w_mid) (body w_mid)) as [o e'] eqn:Hd. simpl.
    destruct o as [[]|[]]; [|reflexivity]. exfalso.
    pose proof (proj1 (Board_draw_normal_iff (board w_mid) (body w_mid))) as Hiff.
    rewrite Hd in Hiff. destruct (Hiff eq_refl df dr HDf HDr) as (c' & Hc' & Ht').
    change (squares_at (board w_mid) df dr) with (Board_get b2 (mkPos df dr)) in Hc'.
    rewrite HgD in Hc'. injection Hc' as <-. destruct Ht'. }
  exists (snd (board_draw w_mid)).
  split; [|unfold board_draw, on_body;
           destruct (Board_draw (board w_mid) (body w_mid)); simpl;
           split; [exact HgD|split; reflexivity]].
  unfold onSquareClick.
  erewrite bind_normal; [|unfold board_get; by rewrite Hc].
  erewrite bind_normal; [|reflexivity].
  rewrite Hsrc, Hor. cbv iota.
  erewrite bind_normal; cycle 1.
  { erewrite bind_normal; [|exact Hmid].
    erewrite bind_normal; reflexivity. }
  change (board_draw w_mid = (Throw TypeError, snd (board_draw w_mid))).
  rewrite <- Hdraw. by destruct (board_draw w_mid).
Qed.

(** The white king's square, after the handler armed on (4,8). *)
Lemma click_after_off_board_arm_witness :
  ∃ w' : World,
    onSquareClick 4 0 (snd (onSquareClick 4 8 idle_example)) = (Throw TypeError, w')
    ∧ Board_get (board w') (mkPos 4 0) = Normal undefined
    ∧ sourceSquare w' = None
    ∧ selectedSquare (board w') = None.
Proof.
  apply (click_after_off_board_arm (snd (onSquareClick 4 8 idle_example))
           (mkPos 4 8) (mkPos 4 0)).
  - apply (bool_decide_unpack _). vm_compute. exact I.
  - vm_compute. reflexivity.
  - unfold on_board_coord, SIZE. simpl. lia.
  - unfold on_board_coord, SIZE. simpl. lia.
  - apply (bool_decide_unpack _). vm_compute. exact I.
Defined.

(** ** No click makes a piece *)

Lemma kind_count_select (kind : Piece -> bool) (sel : option SquarePosition)
    (b : Board) :
  kind_count kind (select sel b) = kind_count kind b.
Proof. reflexivity. Qed.

(** The count of a kind across a relocation, from what the relocation
    leaves on the board. *)
Lemma kind_count_move (kind : Piece -> bool) (b b' : Board)
    (src dst : SquarePosition) (v : SquareContent) :
  in_range src -> in_range dst -> src ≠ dst ->
  Board_get b src = Normal v ->
  Board_get b' dst = Normal v ->
  Board_get b' src = Normal null ->
  (∀ q, q ≠ dst -> q ≠ src -> Board_get b' q = Board_get b q) ->
  (kind_count kind b' + Nat.b2n (holds_kind kind (Board_get b dst))
   = kind_count kind b)%nat.
Proof.
  intros Hins Hind Hne Hv Hgd Hgs Hframe. unfold kind_count.
  set (P0 := fun q => holds_kind kind (Board_get b q)).
  set (P2 := fun q => holds_kind kind (Board_get b' q)).
  set (P1 := fun q => if decide (q = dst) then holds_kind kind (Normal v) else P0 q).
  pose proof (count_update P0 P1 dst) as H1.
  pose proof (count_update P1 P2 src) as H2.
  specialize (H1 ltac:(intros q Hq; unfold P1; by rewrite decide_False)
                 all_positions all_positions_NoDup
                 (proj2 (elem_of_all_positions dst) Hind)).
  assert (Hagree : ∀ q, q ≠ src -> P1 q = P2 q).
  { intros q Hq. unfold P1, P2. destruct (decide (q = dst)) as [->|Hqd].
    - by rewrite Hgd.
    - unfold P0. by rewrite Hframe. }
  specialize (H2 Hagree all_positions all_positions_NoDup
                 (proj2 (elem_of_all_positions src) Hins)).
  assert (E1 : P1 dst = holds_kind kind (Normal v)).
  { unfold P1. by rewrite decide_True. }
  assert (E2 : P1 src = holds_kind kind (Normal v)).
  { unfold P1, P0. rewrite decide_False by exact Hne. by rewrite Hv. }
  assert (E3 : P2 src = false).
  { unfold P2. by rewrite Hgs. }
  rewrite E1 in H1. rewrite E2, E3 in H2.
  change (Nat.b2n false) with 0%nat in H2.
  unfold P0, P2 in H1, H2. cbv beta in H1, H2. lia.
Qed.

(** A click on a square of the board, in a state that satisfies the
    invariant, does not raise the count of any kind of piece. *)
Lemma click_kind_count (kind : Piece -> bool) (w : World) (f r : Z) :
  invariant w -> in_range (mkPos f r) ->
  (kind_count kind (board (snd (onSquareClick f r w)))
   <= kind_count kind (board w))%nat.
Proof.
  intros [Hwf Hbody Hsync Hsource Hcount] Hin.
  destruct (Board_get_wf _ _ Hwf Hin) as (c & Hc & Htc).
  destruct (sourceSquare w) as [src|] eqn:Hsrc.
  - destruct (Hsource src eq_refl) as [Hins _].
    destruct (decide (src = mkPos f r)) as [->|Hne].
    + erewrite click_armed_same by eassumption. simpl.
      by rewrite kind_count_select.
    + destruct (click_armed_move_wf w f r src Hwf Hsrc Hins Hin Hne)
        as (v & b' & Hv & Hclick & _ & Hgd & Hgs & Hframe & _).
      rewrite Hclick. simpl. rewrite kind_count_select.
      pose proof (kind_count_move kind _ _ _ _ _ Hins Hin Hne Hv Hgd Hgs Hframe).
      lia.
  - destruct c as [| |p]; [contradiction| |].
    + erewrite click_idle_empty by eassumption. simpl. lia.
    + erewrite click_idle_select by (eassumption || reflexivity). simpl.
      by rewrite kind_count_select.
Qed.

(** For every kind of piece (any test on type and colour), no click on a
    rendered square of a reachable state raises the number of squares that
    hold such a piece, so a reachable state never has more of a kind than
    the starting position: pieces are moved and overwritten, never made. *)
Theorem kind_count_never_grows (kind : Piece -> bool) (w : World) :
  reachable w ->
  (kind_count kind (board w) <= kind_count kind Board_new)%nat
  ∧ ∀ (cell : Element) (f r : Z),
      cell ∈ square_elements (body w) ->
      (f, r) ∈ clickListeners cell ->
      (kind_count kind (board (snd (onSquareClick f r w)))
       <= kind_count kind (board w))%nat.
Proof.
  intros Hreach. split.
  - induction Hreach as [page|w cell f r Hreach IH Hcell Hlistener].
    + unfold after_main. rewrite after_main_eq. simpl. lia.
    + pose proof (reachable_invariant w Hreach) as Hinv.
      assert (Hin : in_range (mkPos f r)).
      { eapply rendered_listener; [|exact Hlistener].
        unfold square_elements in Hcell. by rewrite (inv_children _ Hinv) in Hcell. }
      pose proof (click_kind_count kind w f r Hinv Hin). lia.
  - intros cell f r Hcell Hlistener.
    pose proof (reachable_invariant w Hreach) as Hinv.
    apply click_kind_count; [exact Hinv|].
    eapply rendered_listener; [|exact Hlistener].
    unfold square_elements in Hcell. by rewrite (inv_children _ Hinv) in Hcell.
Qed.

(** White kings, after the first click on the white pawn of file 4. *)
Lemma kind_count_never_grows_witness :
  (kind_count white_king (board armed_example) <= kind_count white_king Board_new)%nat
  ∧ ∀ (cell : Element) (f r : Z),
      cell ∈ square_elements (body armed_example) ->
      (f, r) ∈ clickListeners cell ->
      (kind_count white_king (board (snd (onSquareClick f r armed_example)))
       <= kind_count white_king (board armed_example))%nat.
Proof.
  apply (kind_count_never_grows white_king armed_example).
  exact armed_example_reachable.
Defined.

(** ** Taking a move back *)

(** In the Idle state, moving a piece from S to an empty square D and then
    moving it back from D to S (four clicks: S, D, D, S) returns normally
    each time and restores the grid exactly, with both markers cleared. *)
Theorem move_and_back (w : World) (S D : SquarePosition) (p : Piece) :
  wf_board (board w) ->
  sourceSquare w = None ->
  in_range S -> in_range D -> S ≠ D ->
  Board_get (board w) S = Normal (piece p) ->
  Board_get (board w) D = Normal null ->
  ∃ w1 w2 w3 w4 : World,
    onSquareClick (file S) (rank S) w = (Normal tt, w1)
    ∧ onSquareClick (file D) (rank D) w1 = (Normal tt, w2)
    ∧ onSquareClick (file D) (rank D) w2 = (Normal tt, w3)
    ∧ onSquareClick (file S) (rank S) w3 = (Normal tt, w4)
    ∧ squares (board w4) = squares (board w)
    ∧ selectedSquare (board w4) = None
    ∧ sourceSquare w4 = None.
Proof.
  intros Hwf Hidle HS HD Hne HgS HgD.
  destruct S as [sf sr], D as [df dr]. simpl.
  set (w1 := redrawn (select (Some (mkPos sf sr)) (board w)) (Some (mkPos sf sr)) w).
  assert (H1 : onSquareClick sf sr w = (Normal tt, w1)).
  { by eapply click_idle_select. }
  destruct (click_armed_move_wf w1 df dr (mkPos sf sr))
    as (v & b2 & Hv & H2 & Hwf2 & Hg2D & Hg2S & Hframe2 & _);
    [exact Hwf|reflexivity|exact HS|exact HD|exact Hne|].
  change (Board_get (board w1) (mkPos sf sr)) with (Board_get (board w) (mkPos sf sr)) in Hv.
  rewrite HgS in Hv. injection Hv as <-.
  set (w2 := redrawn (select None b2) None w1) in *.
  set (w3 := redrawn (select (Some (mkPos df dr)) (board w2)) (Some (mkPos df dr)) w2).
  assert (H3 : onSquareClick df dr w2 = (Normal tt, w3)).
  { eapply click_idle_select; [exact Hwf2|reflexivity|exact Hg2D|reflexivity]. }
  destruct (click_armed_move_wf w3 sf sr (mkPos df dr))
    as (v & b4 & Hv & H4 & Hwf4 & Hg4S & Hg4D & Hframe4 & _);
    [exact Hwf2|reflexivity|exact HD|exact HS|congruence|].
  change (Board_get (board w3) (mkPos df dr)) with (Board_get b2 (mkPos df dr)) in Hv.
  rewrite Hg2D in Hv. injection Hv as <-.
  exists w1, w2, w3, (redrawn (select None b4) None w3).
  split; [exact H1|]. split; [exact H2|]. split; [exact H3|]. split; [exact H4|].
  split; [|split; reflexivity].
  change (squares b4 = squares (board w)).
  apply wf_board_ext; [exact Hwf4|exact Hwf|]. intros q _.
  destruct (decide (q = mkPos sf sr)) as [->|HqS]; [by rewrite Hg4S, HgS|].
  destruct (decide (q = mkPos df dr)) as [->|HqD]; [by rewrite Hg4D, HgD|].
  rewrite Hframe4 by assumption.
  change (Board_get (board w3) q) with (Board_get b2 q).
  rewrite Hframe2 by assumption. reflexivity.
Qed.

(** The white pawn of file 4, out to (4,3) and back. *)
Lemma move_and_back_witness :
  ∃ w1 w2 w3 w4 : World,
    onSquareClick 4 1 idle_example = (Normal tt, w1)
    ∧ onSquareClick 4 3 w1 = (Normal tt, w2)
    ∧ onSquareClick 4 3 w2 = (Normal tt, w3)
    ∧ onSquareClick 4 1 w3 = (Normal tt, w4)
    ∧ squares (board w4) = squares (board idle_example)
    ∧ selectedSquare (board w4) = None
    ∧ sourceSquare w4 = None.
Proof.
  apply (move_and_back idle_example (mkPos 4 1) (mkPos 4 3)
           (mkPiece (Some PAWN) WHITE)).
  - apply (bool_decide_unpack _). vm_compute. exact I.
  - vm_compute. reflexivity.
  - apply (bool_decide_unpack _). vm_compute. exact I.
  - apply (bool_decide_unpack _). vm_compute. exact I.
  - discriminate.
  - vm_compute. reflexivity.
  - vm_compute. reflexivity.
Defined.

(** ** Glyphs *)

(** [character()] throws exactly on a piece without a piece type.  When it
    returns, the string is a single code unit of the chess block, U+2654 to
    U+2659 for white and U+265A to U+265F for black, and it determines the
    piece: two pieces with the same glyph have the same type and colour. *)
Theorem Piece_character_glyphs (p : Piece) :
  match Piece_character p with
  | Throw _ => pieceType p = None
  | Normal s =>
      (∃ u : N, s = [u]
                ∧ (color p = WHITE -> (0x2654 <= u <= 0x2659)%N)
                ∧ (color p = BLACK -> (0x265A <= u <= 0x265F)%N))
      ∧ ∀ p', Piece_character p' = Normal s -> p' = p
  end.
Proof.
  destruct p as [[t|] col]; [|reflexivity]. unfold Piece_character; simpl.
  split.
  - destruct t, col;
      (eexists; split; [reflexivity|]; split; intros H; try discriminate H; lia).
  - intros [[t'|] col']; unfold Piece_character; simpl; [|discriminate].
    intros H. destruct t, col, t', col'; try discriminate H; reflexivity.
Qed.

(** ** Selecting a piece *)

Lemma rendered_cell_inv (b : Board) (cell : Element) :
  cell ∈ concat (map children (rendered b)) ->
  ∃ f r, in_range (mkPos f r) ∧ cell = rendered_square b r f.
Proof.
  intros Hc.
  apply list_elem_of_In, in_concat in Hc as (cs & Hcs & Hc).
  apply in_map_iff in Hcs as (row & <- & Hrow).
  unfold rendered in Hrow. apply in_map_iff in Hrow as (r & <- & Hr).
  change (children (rendered_rank b r))
    with (map (rendered_square b r) [0; 1; 2; 3; 4; 5; 6; 7]) in Hc.
  apply in_map_iff in Hc as (f & <- & Hf).
  exists f, r. split; [|reflexivity].
  unfold in_range, on_board_coord, SIZE. simpl in *. intuition lia.
Qed.

(** In the Idle state, a click on an occupied square S returns normally,
    leaves the grid as it was, sets both markers to S, and redraws so that
    the selected tag is on the cell of S and on no other cell. *)
Theorem click_idle_occupied (w : World) (S : SquarePosition) (p : Piece) :
  wf_board (board w) ->
  sourceSquare w = None ->
  Board_get (board w) S = Normal (piece p) ->
  ∃ w' : World,
    onSquareClick (file S) (rank S) w = (Normal tt, w')
    ∧ squares (board w') = squares (board w)
    ∧ selectedSquare (board w') = Some S
    ∧ sourceSquare w' = Some S
    ∧ ∀ cell, cell ∈ square_elements (body w') ->
        ("square-selected" ∈ classList cell
         ↔ clickListeners cell = [(file S, rank S)]).
Proof.
  intros Hwf Hidle Hget. destruct S as [sf sr]. simpl.
  eexists. split; [by eapply click_idle_select|].
  split; [reflexivity|]. split; [reflexivity|]. split; [reflexivity|].
  intros cell Hcell.
  apply (rendered_cell_inv (select (Some (mkPos sf sr)) (board w))) in Hcell
    as (f & r & _ & ->).
  rewrite rendered_square_selected. simpl.
  split; [intros [= -> ->]; reflexivity|intros [= -> ->]; reflexivity].
Qed.

(** The white pawn of file 4 on the initial page. *)
Lemma click_idle_occupied_witness :
  ∃ w' : World,
    onSquareClick 4 1 idle_example = (Normal tt, w')
    ∧ squares (board w') = squares (board idle_example)
    ∧ selectedSquare (board w') = Some (mkPos 4 1)
    ∧ sourceSquare w' = Some (mkPos 4 1)
    ∧ ∀ cell, cell ∈ square_elements (body w') ->
        ("square-selected" ∈ classList cell
         ↔ clickListeners cell = [(4, 1)]).
Proof.
  apply (click_idle_occupied idle_example (mkPos 4 1) (mkPiece (Some PAWN) WHITE)).
  - apply (bool_decide_unpack _). vm_compute. exact I.
  - vm_compute. reflexivity.
  - vm_compute. reflexivity.
Defined.
